(** * USTrade: submission and aggregation pipelines

    A shallow embedding of the two pipelines of the repository:

    - the submission pipeline of the trade webhook module
      ([getHSCodeDescription], [makeRequest], [processTradeData]);
    - the aggregation pipeline of [TradeAnalysisChart.tsx]
      (the [validData] filter of [fetchTradeStats] and the [chartData] memo).

    JavaScript strings are sequences of UTF-16 code units, JavaScript numbers
    that carry measurements ([value], [volume] and the sums and quotients
    derived from them) are IEEE-754 binary64 floats, and the asynchronous
    code is written as explicit state passing over a trace of the effects it
    performs (console output, store queries, HTTP posts, timers). *)

From Stdlib Require Import String Ascii DecimalString DecimalZ.
From Stdlib Require Import ZArith NArith Bool Lia Floats.
From Stdlib Require Import List Permutation Sorted.
From Equations Require Import Equations.
Import ListNotations.

Set Implicit Arguments.

(* ------------------------------------------------------------------------- *)
(** ** JavaScript strings and values *)

(** A JavaScript string: its UTF-16 code units. *)
Definition jsstring := list N.

(** A string literal of the source (ASCII) as code units. *)
Definition js (s : string) : jsstring :=
  map N_of_ascii (list_ascii_of_string s).

Definition jsstring_eqb (a b : jsstring) : bool :=
  if list_eq_dec N.eq_dec a b then true else false.

(** The values a dynamically typed position can hold.  Objects that are only
    passed around are [JObj]. *)
Inductive JsVal :=
| JUndefined
| JNull
| JBool (b : bool)
| JNum (x : float)
| JStr (s : jsstring)
| JObj.

Inductive JsType := TUndefined | TObject | TBoolean | TNumber | TString.

Definition typeof (v : JsVal) : JsType :=
  match v with
  | JUndefined => TUndefined
  | JNull => TObject
  | JBool _ => TBoolean
  | JNum _ => TNumber
  | JStr _ => TString
  | JObj => TObject
  end.

Definition JsType_eqb (a b : JsType) : bool :=
  match a, b with
  | TUndefined, TUndefined | TObject, TObject | TBoolean, TBoolean
  | TNumber, TNumber | TString, TString => true
  | _, _ => false
  end.

(** [v === 'literal'] *)
Definition strict_eq_str (v : JsVal) (lit : jsstring) : bool :=
  match v with
  | JStr s => jsstring_eqb s lit
  | _ => false
  end.

(** The code unit of the double quote, as a one-unit string. *)
Definition dquote : jsstring := [0x22%N].

(** [a || b] on strings that may be absent: the empty string and
    [undefined]/[null] are falsy. *)
Definition or_else (a : option jsstring) (b : jsstring) : jsstring :=
  match a with
  | Some (c :: s) => c :: s
  | Some [] => b
  | None => b
  end.

(** Decimal numeral of an integer, as [String(n)] and template literals print
    an integer-valued number. *)
Definition dec (z : Z) : jsstring := js (NilZero.string_of_int (Z.to_int z)).

(* ------------------------------------------------------------------------- *)
(** ** String.prototype.trim and the regular expression of the validator *)

(** WhiteSpace and LineTerminator code units, the ones [trim] strips. *)
Definition is_white_space (c : N) : bool :=
  ((c =? 0x09) || (c =? 0x0A) || (c =? 0x0B) || (c =? 0x0C) || (c =? 0x0D)
   || (c =? 0x20) || (c =? 0xA0) || (c =? 0x1680)
   || ((0x2000 <=? c) && (c <=? 0x200A))
   || (c =? 0x2028) || (c =? 0x2029) || (c =? 0x202F) || (c =? 0x205F)
   || (c =? 0x3000) || (c =? 0xFEFF))%N.

Fixpoint trimStart (s : jsstring) : jsstring :=
  match s with
  | [] => []
  | c :: r => if is_white_space c then trimStart r else s
  end.

Definition trimEnd (s : jsstring) : jsstring := rev (trimStart (rev s)).

Definition trim (s : jsstring) : jsstring := trimEnd (trimStart s).

(** [\d] without the unicode flag: the ASCII digits. *)
Definition is_digit (c : N) : bool := ((0x30 <=? c) && (c <=? 0x39))%N.

(** The regular expressions the module uses: a sequence of assertions and
    one-code-unit classes. *)
Inductive ReTerm :=
| AssertStart                 (* ^ *)
| AssertEnd                   (* $, no multiline flag *)
| Class (p : N -> bool).

Definition regex := list ReTerm.

(** [a{n}] *)
Definition times (n : nat) (t : ReTerm) : regex := repeat t n.

(** Match of the pattern at index [i], [s] being the input from [i] on. *)
Fixpoint match_here (r : regex) (i : nat) (s : jsstring) : bool :=
  match r with
  | [] => true
  | AssertStart :: r' => (i =? 0)%nat && match_here r' i s
  | AssertEnd :: r' =>
      match s with [] => match_here r' i s | _ :: _ => false end
  | Class p :: r' =>
      match s with
      | [] => false
      | c :: s' => p c && match_here r' (S i) s'
      end
  end.

(** [RegExp.prototype.test] without the global flag: a match at some index. *)
Fixpoint test_from (r : regex) (i : nat) (s : jsstring) : bool :=
  match_here r i s ||
  match s with
  | [] => false
  | _ :: s' => test_from r (S i) s'
  end.

Definition test (r : regex) (s : jsstring) : bool := test_from r 0 s.

(** [/^\d{10}$/] *)
Definition hts_pattern : regex :=
  [AssertStart] ++ times 10 (Class is_digit) ++ [AssertEnd].

(* ------------------------------------------------------------------------- *)
(** ** Submission pipeline (trade webhook module) *)

Module Submission.

Definition DEV_MODE : bool := false.
Definition MAX_RETRIES : nat := 3.
Definition RETRY_DELAY : Z := 1000.
Definition REQUEST_TIMEOUT : Z := 15000.

Inductive TradeType := Import | Export.

(** [TradeWebhookPayload] *)
Record TradeWebhookPayload := {
  hsCode : jsstring;
  hsCodeDescription : jsstring;
  tradeType : TradeType;
  timestamp : jsstring;
  requestId : jsstring
}.

(** What [axios.post] rejects with.  [code] is [error.code], [status] is
    [error.response?.status] ([None] when there is no response), [message] is
    [error.message]; [isAxiosError] is the answer of [axios.isAxiosError]. *)
Record Failure := {
  isAxiosError : bool;
  code : option jsstring;
  status : option Z;
  message : option jsstring
}.

(** One [axios.post]: the response body or a rejection. *)
Inductive Outcome :=
| Responded (data : JsVal)
| Rejected (error : Failure).

(** What [makeRequest] resolves to. *)
Inductive Reply :=
| Bypassed (success : bool) (msg : jsstring) (data : TradeWebhookPayload)
| ResponseData (data : JsVal).

(** A row of [hs_codes] as selected by the lookup, and the answer of
    [.single()]: it throws, or yields [{ data, error }]. *)
Record HsCodeRow := { hs_code_description : option jsstring }.

Inductive QueryOutcome :=
| QueryThrows
| QueryResult (data : option HsCodeRow) (error : bool).

(** The collaborators of the module: the store, the endpoint (answering the
    n-th post, counted from 0), the clock and the identifier source. *)
Record World := {
  hs_codes_single : jsstring -> QueryOutcome;
  endpoint : nat -> TradeWebhookPayload -> Outcome;
  now_iso : jsstring;
  uuidv4 : jsstring
}.

Inductive Event :=
| ConsoleLog (msg : jsstring)
| ConsoleError (label : jsstring)
| Query (id : jsstring)
| Post (url : jsstring) (body : TradeWebhookPayload) (timeout : Z)
| Delay (ms : Z).

(** State threaded through the asynchronous code: how many posts were sent
    and everything done so far, oldest first. *)
Record St := { sent : nat; trace : list Event }.

Definition init : St := {| sent := 0; trace := [] |}.

Definition emit (e : Event) (st : St) : St :=
  {| sent := sent st; trace := trace st ++ [e] |}.

(** A settled promise: resolved with a value or rejected with [new Error(msg)]. *)
Inductive Res (A : Type) :=
| Ret (a : A)
| Throw (msg : jsstring).
Arguments Ret {A} a.
Arguments Throw {A} msg.

Definition WEBHOOK_URL : jsstring :=
  js "https://n8n.srv757120.hstgr.cloud/webhook-test/feb3be7f-79b2-454d-8c06-c704f69efbd0".

Definition placeholder : jsstring := js "Description not available".

Definition delay (ms : Z) (st : St) : St := emit (Delay ms) st.

Definition axios_post (w : World) (payload : TradeWebhookPayload) (st : St)
  : St * Outcome :=
  ({| sent := S (sent st);
      trace := trace st ++ [Post WEBHOOK_URL payload REQUEST_TIMEOUT] |},
   endpoint w (sent st) payload).

Definition getHSCodeDescription (w : World) (hsCode : jsstring) (st : St)
  : St * Res jsstring :=
  let st := emit (Query hsCode) st in
  match hs_codes_single w hsCode with
  | QueryResult data error =>
      if error then
        (emit (ConsoleError (js "Error fetching HS code description:")) st,
         Ret placeholder)
      else
        (st,
         Ret (or_else
                (match data with
                 | Some row => hs_code_description row
                 | None => None
                 end)
                placeholder))
  | QueryThrows =>
      (emit (ConsoleError (js "Error in getHSCodeDescription:")) st,
       Ret placeholder)
  end.

(** The tail of [makeRequest]'s catch block, reached when no attempt is left. *)
Definition terminal_error (error : Failure) : jsstring :=
  let other :=
    (js "Failed to process trade data: "
       ++ or_else (message error) (js "Unknown error")) in
  if isAxiosError error then
    if match code error with
       | Some c => jsstring_eqb c (js "ECONNABORTED") | None => false end
    then js "Request timed out. Please try again."
    else if match code error with
            | Some c => jsstring_eqb c (js "ERR_NETWORK") | None => false end
    then js "Network error. Please check your internet connection."
    else
      match status error with
      | Some 400%Z => js "Invalid request: Please check HTS code format and trade type"
      | Some 401%Z => js "Unauthorized: Authentication failed"
      | Some 500%Z => js "Server error: Failed to process trade data"
      | _ => other
      end
  else other.

Definition retry_message (attempt : nat) : jsstring :=
  js "Retrying request, attempt " ++ dec (Z.of_nat (attempt + 1))
     ++ js " of " ++ dec (Z.of_nat MAX_RETRIES).

Equations? makeRequest (w : World) (payload : TradeWebhookPayload)
  (attempt : nat) (st : St) : St * Res Reply
  by wf (MAX_RETRIES - attempt) lt :=
makeRequest w payload attempt st with DEV_MODE => {
  | true :=
      (emit (ConsoleLog (js "Development mode: Bypassing webhook call")) st,
       Ret (Bypassed true (js "Webhook bypassed in development mode") payload));
  | false with axios_post w payload st => {
      | (st1, Responded data) := (st1, Ret (ResponseData data));
      | (st1, Rejected error) with lt_dec attempt MAX_RETRIES => {
          | left _ :=
              makeRequest w payload (attempt + 1)
                (delay (RETRY_DELAY * Z.of_nat attempt)
                   (emit (ConsoleLog (retry_message attempt)) st1));
          | right _ := (st1, Throw (terminal_error error)) } } }.
Proof.
  unfold MAX_RETRIES in l.
  do 3 (destruct attempt as [|attempt]; [simpl; lia|]). lia.
Qed.

(** The two guards at the head of [processTradeData]; [None] when both pass,
    otherwise the message of the error thrown. *)
Definition validate (hsCode tradeType : JsVal) : option jsstring :=
  if negb (JsType_eqb (typeof hsCode) TString)
     || negb (match hsCode with
              | JStr s => test hts_pattern (trim s)
              | _ => false
              end)
  then Some (js "Invalid HTS code format. Must be exactly 10 digits.")
  else if negb (strict_eq_str tradeType (js "Import"))
          && negb (strict_eq_str tradeType (js "Export"))
  then Some (js "Invalid trade type. Must be " ++ dquote ++ js "Import"
                ++ dquote ++ js " or " ++ dquote ++ js "Export" ++ dquote
                ++ js ".")
  else None.

(** [processTradeData].  A guard that throws is caught by the function's own
    [catch], which logs and rethrows; [return makeRequest(payload)] is not
    awaited, so a rejection of [makeRequest] passes through unlogged. *)
Definition processTradeData (w : World) (hsCode tradeType : JsVal) (st : St)
  : St * Res Reply :=
  match validate hsCode tradeType with
  | Some msg => (emit (ConsoleError (js "processTradeData error:")) st, Throw msg)
  | None =>
      let code := match hsCode with JStr s => trim s | _ => [] end in
      match getHSCodeDescription w code st with
      | (st1, Throw msg) =>
          (emit (ConsoleError (js "processTradeData error:")) st1, Throw msg)
      | (st1, Ret description) =>
          let payload :=
            {| hsCode := code;
               hsCodeDescription := description;
               tradeType := if strict_eq_str tradeType (js "Import")
                            then Import else Export;
               timestamp := now_iso w;
               requestId := uuidv4 w |} in
          makeRequest w payload 1 st1
      end
  end.

End Submission.

(* ------------------------------------------------------------------------- *)
(** ** Aggregation pipeline (TradeAnalysisChart.tsx) *)

(** *** The filter of [fetchTradeStats] *)

Module Raw.

(** A row as the store client hands it over, before any check: every field
    can hold any value. *)
Record Stat := {
  year_val : JsVal;
  month_val : JsVal;
  value : JsVal;
  volume : JsVal;
  value_per_volume : JsVal;
  trade_flow : JsVal;
  hs_code_id : JsVal
}.

(** An element of [data]: [None] is a falsy element ([null], [undefined]),
    [Some] an object. *)
Definition Row := option Stat.

(** The predicate of [(data || []).filter(stat => ...)].  The conjunction is
    evaluated left to right, so the two [isNaN] calls only ever see numbers,
    where [isNaN] is the NaN test of the float. *)
Definition keep (stat : Row) : bool :=
  match stat with
  | None => false
  | Some s =>
      JsType_eqb (typeof (year_val s)) TNumber
      && JsType_eqb (typeof (month_val s)) TNumber
      && JsType_eqb (typeof (value s)) TNumber
      && JsType_eqb (typeof (volume s)) TNumber
      && match value s, volume s with
         | JNum v, JNum vol =>
             negb (PrimFloat.is_nan v) && negb (PrimFloat.is_nan vol)
         | _, _ => false
         end
  end.

(** [data || []] followed by the filter; [None] is a [null] result set. *)
Definition validData (data : option (list Row)) : list Row :=
  filter keep (match data with Some rows => rows | None => [] end).

End Raw.

(** *** The [chartData] memo *)

Module TradeStats.
(** [interface TradeStats].  [year_val] and [month_val] are the integer
    columns of [trade_stats]; the period key prints them with [String], which
    for an integer is its decimal numeral. *)
Record t := {
  year_val : Z;
  month_val : Z;
  value : float;
  volume : float;
  value_per_volume : float;
  trade_flow : jsstring;
  hs_code_id : jsstring
}.
End TradeStats.

Module ChartData.
(** [interface ChartData]; [isLatest] is optional. *)
Record t := {
  month : jsstring;
  total_value : float;
  volume : float;
  value_per_volume : float;
  isLatest : option bool
}.

Definition with_isLatest (b : bool) (d : t) : t :=
  {| month := month d;
     total_value := total_value d;
     volume := volume d;
     value_per_volume := value_per_volume d;
     isLatest := Some b |}.
End ChartData.

(** [String.prototype.padStart] with a one-unit filler. *)
Definition padStart (targetLength : nat) (filler : N) (s : jsstring) : jsstring :=
  repeat filler (targetLength - length s) ++ s.

(** [a.localeCompare(b)] as -1, 0 or 1.  The strings compared are period
    keys, made of ASCII digits and hyphens, on which collation order is the
    order of the code units. *)
Fixpoint localeCompare (a b : jsstring) : Z :=
  match a, b with
  | [], [] => 0
  | [], _ :: _ => -1
  | _ :: _, [] => 1
  | x :: a', y :: b' =>
      match N.compare x y with
      | Eq => localeCompare a' b'
      | Lt => -1
      | Gt => 1
      end
  end.

(** A JavaScript [Map] keyed by strings: entries in insertion order. *)
Module JsMap.
Section WithValue.
Variable V : Type.

Definition t := list (jsstring * V).

Definition empty : t := [].

Fixpoint get (k : jsstring) (m : t) : option V :=
  match m with
  | [] => None
  | (k', v) :: r => if jsstring_eqb k k' then Some v else get k r
  end.

(** An existing key keeps its place, a new one goes last. *)
Fixpoint set (k : jsstring) (v : V) (m : t) : t :=
  match m with
  | [] => [(k, v)]
  | (k', v') :: r =>
      if jsstring_eqb k k' then (k', v) :: r else (k', v') :: set k v r
  end.

Definition values (m : t) : list V := map snd m.
End WithValue.
End JsMap.

(** [Array.prototype.sort(compareFn)]: a stable sort; an element moves
    behind the ones that [compareFn] orders strictly before it, and stays in
    front of the later ones it is level with. *)
Section Sort.
Variable A : Type.
Variable compareFn : A -> A -> Z.

Fixpoint insert_sorted (x : A) (l : list A) : list A :=
  match l with
  | [] => [x]
  | y :: r =>
      if (0 <? compareFn x y)%Z then y :: insert_sorted x r else x :: y :: r
  end.

Fixpoint sort (l : list A) : list A :=
  match l with
  | [] => []
  | x :: r => insert_sorted x (sort r)
  end.
End Sort.

(** [l[i] = f(l[i])], nothing when [i] is out of range. *)
Fixpoint update_at (A : Type) (i : nat) (f : A -> A) (l : list A) : list A :=
  match l, i with
  | [], _ => []
  | x :: r, O => f x :: r
  | x :: r, S j => x :: update_at j f r
  end.

Module Aggregator.
Import ChartData.

Definition monthKey (stat : TradeStats.t) : jsstring :=
  dec (TradeStats.year_val stat) ++ js "-"
    ++ padStart 2 0x30 (dec (TradeStats.month_val stat)).

(** The body of [tradeStats.forEach]. *)
Definition accumulate (monthlyData : JsMap.t ChartData.t) (stat : TradeStats.t)
  : JsMap.t ChartData.t :=
  let key := monthKey stat in
  let currentData :=
    match JsMap.get key monthlyData with
    | Some d => d
    | None =>
        {| month := key; total_value := 0; volume := 0;
           value_per_volume := 0; isLatest := None |}
    end in
  let total_value' := (total_value currentData + TradeStats.value stat)%float in
  let volume' := (volume currentData + TradeStats.volume stat)%float in
  JsMap.set key
    {| month := month currentData;
       total_value := total_value';
       volume := volume';
       value_per_volume := (total_value' / volume')%float;
       isLatest := isLatest currentData |}
    monthlyData.

Definition monthlyData (tradeStats : list TradeStats.t) : JsMap.t ChartData.t :=
  fold_left accumulate tradeStats (JsMap.empty _).

Definition chartData (tradeStats : list TradeStats.t) : list ChartData.t :=
  if (length tradeStats =? 0)%nat then []
  else
    let sortedData :=
      sort (fun a b => localeCompare (month a) (month b))
           (map (with_isLatest false) (JsMap.values (monthlyData tradeStats))) in
    if (0 <? length sortedData)%nat
    then update_at (length sortedData - 1) (with_isLatest true) sortedData
    else sortedData.

(** An observation of the spec's examples: (year, month, value, volume). *)
Definition obs (y m : Z) (v vol : float) : TradeStats.t :=
  {| TradeStats.year_val := y; TradeStats.month_val := m;
     TradeStats.value := v; TradeStats.volume := vol;
     TradeStats.value_per_volume := (v / vol)%float;
     TradeStats.trade_flow := js "Import";
     TradeStats.hs_code_id := js "1234567890" |}.

End Aggregator.

(* ------------------------------------------------------------------------- *)
(** ** The rest of the chart component (TradeAnalysisChart.tsx) *)

Module Chart.
Import ChartData.

Inductive TimeRange := current | two_years | five_years.

Inductive TradeFlow := Import | Export.

Definition flow_name (f : TradeFlow) : jsstring :=
  match f with Import => js "Import" | Export => js "Export" end.

(** The object [getTimeRangeFilter] returns. *)
Record TimeRangeFilter := { startYear : Z }.

(** [getTimeRangeFilter]; [currentYear] is [new Date().getFullYear()]. *)
Definition getTimeRangeFilter (currentYear : Z) (range : TimeRange)
  : TimeRangeFilter :=
  match range with
  | current => {| startYear := currentYear |}
  | two_years => {| startYear := currentYear - 1 |}
  | five_years => {| startYear := currentYear - 5 |}
  end.


(** [getBarColor]: an absent [isLatest] is falsy. *)
Definition getBarColor (entry : ChartData.t) : jsstring :=
  match isLatest entry with
  | Some true => js "#2dd4bf"
  | _ => js "#2a9d90"
  end.

(** The calls made on the store client's query builder, in call order. *)
Inductive QueryOp :=
| QFrom (table : jsstring)
| QSelect (columns : jsstring)
| QEq (column value : jsstring)
| QOrder (column : jsstring) (ascending : bool)
| QGte (column : jsstring) (value : Z)
| QSingle.

(** What awaiting the [trade_stats] query gives: it throws, or yields
    [{ data, error }]. *)
Inductive FetchOutcome :=
| FetchThrows
| FetchResult (data : option (list Raw.Row)) (error : bool).

(** What the component does to its state and to the outside, in order. *)
Inductive Event :=
| SetLoading (b : bool)
| SetTradeStats (rows : list Raw.Row)
| SetHsCodeDescription (s : jsstring)
| StoreQuery (ops : list QueryOp)
| ConsoleError (label : jsstring)
| ToastError (msg : jsstring).

(** The state of the component the two fetches write. *)
Record State := {
  loading : bool;
  tradeStats : list Raw.Row;
  hsCodeDescription : jsstring
}.

(** [useState] initial values. *)
Definition initial : State :=
  {| loading := true; tradeStats := []; hsCodeDescription := [] |}.

Definition apply_event (s : State) (e : Event) : State :=
  match e with
  | SetLoading b =>
      {| loading := b; tradeStats := tradeStats s;
         hsCodeDescription := hsCodeDescription s |}
  | SetTradeStats rows =>
      {| loading := loading s; tradeStats := rows;
         hsCodeDescription := hsCodeDescription s |}
  | SetHsCodeDescription d =>
      {| loading := loading s; tradeStats := tradeStats s;
         hsCodeDescription := d |}
  | _ => s
  end.

Definition run_events (s : State) (evs : list Event) : State :=
  fold_left apply_event evs s.

(** [fetchHsCodeDescription]: an error of the query is thrown into the
    function's own [catch]. *)
Definition fetchHsCodeDescription
  (single : jsstring -> Submission.QueryOutcome) (hsCode : jsstring)
  : list Event :=
  StoreQuery [QFrom (js "hs_codes"); QSelect (js "hs_code_description");
              QEq (js "id") hsCode; QSingle]
  :: match single hsCode with
     | Submission.QueryResult data false =>
         [SetHsCodeDescription
            (or_else (match data with
                      | Some row => Submission.hs_code_description row
                      | None => None
                      end) [])]
     | _ =>
         [ConsoleError (js "Error fetching HS code description:");
          SetHsCodeDescription []]
     end.

(** The query [fetchTradeStats] builds. *)
Definition trade_stats_query (hsCode : jsstring) (tradeFlow : TradeFlow)
  (filter : TimeRangeFilter) : list QueryOp :=
  [QFrom (js "trade_stats"); QSelect (js "*");
   QEq (js "hs_code_id") hsCode; QEq (js "trade_flow") (flow_name tradeFlow);
   QOrder (js "year_val") true; QOrder (js "month_val") true]
  ++ (if (0 <? startYear filter)%Z
      then [QGte (js "year_val") (startYear filter)] else []).

(** [fetchTradeStats]: [try], [catch] and [finally]. *)
Definition fetchTradeStats (store : list QueryOp -> FetchOutcome)
  (currentYear : Z) (hsCode : jsstring) (timeRange : TimeRange)
  (tradeFlow : TradeFlow) : list Event :=
  let query :=
    trade_stats_query hsCode tradeFlow
      (getTimeRangeFilter currentYear timeRange) in
  [SetLoading true; StoreQuery query]
  ++ match store query with
     | FetchResult data false => [SetTradeStats (Raw.validData data)]
     | _ =>
         [ConsoleError (js "Error fetching trade stats:");
          ToastError (js "Failed to fetch trade statistics");
          SetTradeStats []]
     end
  ++ [SetLoading false].

(** [Array.prototype.join] on strings. *)
Fixpoint join (separator : jsstring) (parts : list jsstring) : jsstring :=
  match parts with
  | [] => []
  | [x] => x
  | x :: r => x ++ separator ++ join separator r
  end.

(** An element of a CSV row before [join] turns it into a string. *)
Inductive Cell :=
| Text (s : jsstring)
| Number (x : float).

Section CsvExport.
(** [formatDate] goes through [Date] and the locale, and [join] prints a
    number with [Number.prototype.toString]; both are taken as given. *)
Variable formatDate : jsstring -> jsstring.
Variable numberToString : float -> jsstring.

Definition cell_string (c : Cell) : jsstring :=
  match c with
  | Text s => s
  | Number x => numberToString x
  end.

Definition csvHeader : list Cell :=
  [Text (js "Date"); Text (js "Customs Value"); Text (js "Volume (kg)");
   Text (js "Value per Volume")].

Definition csvRow (data : ChartData.t) : list Cell :=
  [Text (formatDate (month data)); Number (total_value data);
   Number (volume data); Number (value_per_volume data)].

(** [csvContent] of [handleExportData]. *)
Definition csvContent (chartData : list ChartData.t) : jsstring :=
  join [0x0A%N]
       (map (fun row => join (js ",") (map cell_string row))
            (csvHeader :: map csvRow chartData)).
End CsvExport.

End Chart.

(* ------------------------------------------------------------------------- *)
(** ** Route middleware *)

Module Middleware.

(** [String.prototype.startsWith] *)
Fixpoint startsWith (s searchString : jsstring) : bool :=
  match searchString, s with
  | [], _ => true
  | _ :: _, [] => false
  | p :: ps, c :: cs => (c =? p)%N && startsWith cs ps
  end.

(** What the middleware answers: the response it was handed, or a redirect
    to a path of the same origin. *)
Inductive Response :=
| Next
| Redirect (pathname : jsstring).

(** [middleware]; [session] tells whether [getSession] found one, [pathname]
    is [req.nextUrl.pathname]. *)
Definition middleware (session : bool) (pathname : jsstring) : Response :=
  if negb session && startsWith pathname (js "/dashboard")
  then Redirect (js "/auth/login")
  else if session && startsWith pathname (js "/auth")
  then Redirect (js "/dashboard")
  else Next.

End Middleware.

(* ========================================================================= *)
(** * Properties *)

Lemma jsstring_eqb_eq a b : jsstring_eqb a b = true <-> a = b.
Proof.
  unfold jsstring_eqb. destruct (list_eq_dec N.eq_dec a b); split; congruence.
Qed.

Lemma jsstring_eqb_refl a : jsstring_eqb a a = true.
Proof. now apply jsstring_eqb_eq. Qed.

(* ------------------------------------------------------------------------- *)
(** ** The dispatcher *)

Module SubmissionFacts.
Import Submission.

(** The events that reach the network or the timer: console output removed. *)
Definition wire (evs : list Event) : list Event :=
  filter (fun e => match e with
                   | ConsoleLog _ | ConsoleError _ => false
                   | _ => true
                   end) evs.

Definition post_of (p : TradeWebhookPayload) : Event :=
  Post WEBHOOK_URL p REQUEST_TIMEOUT.

(** The delivery schedule in the spec's words: attempt 1, then for each
    further attempt k a wait of 1000 * (k - 1) ms followed by the same
    payload again. *)
Definition schedule (p : TradeWebhookPayload) (attempts : nat) : list Event :=
  post_of p ::
  flat_map (fun k => [Delay (1000 * (Z.of_nat k - 1)); post_of p])
           (seq 2 (attempts - 1)).

(** The state after a post went out. *)
Definition posted (p : TradeWebhookPayload) (st : St) : St :=
  {| sent := S (sent st); trace := trace st ++ [post_of p] |}.

(** The state in which the next attempt starts after a rejected one. *)
Definition backed_off (p : TradeWebhookPayload) (attempt : nat) (st : St) : St :=
  delay (RETRY_DELAY * Z.of_nat attempt)
        (emit (ConsoleLog (retry_message attempt)) (posted p st)).

Lemma makeRequest_unfold w p attempt st :
  makeRequest w p attempt st =
  match endpoint w (sent st) p with
  | Responded data => (posted p st, Ret (ResponseData data))
  | Rejected error =>
      if (attempt <? MAX_RETRIES)%nat
      then makeRequest w p (attempt + 1) (backed_off p attempt st)
      else (posted p st, Throw (terminal_error error))
  end.
Proof.
  rewrite makeRequest_equation_1.
  unfold makeRequest_unfold_clause_1, DEV_MODE, axios_post.
  destruct (endpoint w (sent st) p) as [data|error]; [reflexivity|].
  destruct (Nat.ltb_spec attempt MAX_RETRIES) as [Hlt|Hge];
    unfold makeRequest_unfold_clause_1_clause_2;
    destruct (lt_dec attempt MAX_RETRIES) as [Hlt'|Hge']; try lia; reflexivity.
Qed.

Lemma sent_backed_off p attempt st : sent (backed_off p attempt st) = S (sent st).
Proof. reflexivity. Qed.

Lemma trace_backed_off p attempt st :
  trace (backed_off p attempt st) =
  trace st ++ [post_of p; ConsoleLog (retry_message attempt);
               Delay (RETRY_DELAY * Z.of_nat attempt)].
Proof. cbn. now rewrite <- !app_assoc. Qed.

(** C3. A rejected attempt below the maximum is followed by the next attempt
    whatever the rejection was: the continuation does not mention the failure.
    When all three attempts are rejected, the error thrown is the
    classification of the third rejection alone; the first two only leave
    the retry lines on the console. *)
Theorem retry_ignores_failure_class :
  (forall w p attempt st error,
      (attempt < MAX_RETRIES)%nat ->
      endpoint w (sent st) p = Rejected error ->
      makeRequest w p attempt st
      = makeRequest w p (attempt + 1) (backed_off p attempt st))
  /\
  (forall w p st e1 e2 e3,
      endpoint w (sent st) p = Rejected e1 ->
      endpoint w (S (sent st)) p = Rejected e2 ->
      endpoint w (S (S (sent st))) p = Rejected e3 ->
      makeRequest w p 1 st
      = ({| sent := S (S (S (sent st)));
            trace := trace st ++
              [post_of p; ConsoleLog (retry_message 1); Delay 1000;
               post_of p; ConsoleLog (retry_message 2); Delay 2000;
               post_of p] |},
         Throw (terminal_error e3))).
Proof.
  split.
  - intros w p attempt st error Hlt Hrej.
    rewrite makeRequest_unfold, Hrej.
    apply Nat.ltb_lt in Hlt. now rewrite Hlt.
  - intros w p st e1 e2 e3 H1 H2 H3.
    rewrite makeRequest_unfold, H1. cbn [Nat.ltb Nat.leb MAX_RETRIES Nat.add].
    rewrite makeRequest_unfold, sent_backed_off, H2.
    cbn [Nat.ltb Nat.leb MAX_RETRIES Nat.add].
    rewrite makeRequest_unfold, sent_backed_off, sent_backed_off, H3.
    cbn [Nat.ltb Nat.leb MAX_RETRIES Nat.add].
    unfold posted. rewrite !sent_backed_off, !trace_backed_off.
    rewrite <- !app_assoc. reflexivity.
Qed.

Definition http (st : Z) (msg : string) : Failure :=
  {| isAxiosError := true;
     code := Some (js (if (st <? 500)%Z then "ERR_BAD_REQUEST" else "ERR_BAD_RESPONSE"));
     status := Some st;
     message := Some (js msg) |}.

Definition always_rejecting (e1 e2 e3 : Failure) : World :=
  {| hs_codes_single := fun _ => QueryThrows;
     endpoint := fun n _ => Rejected (match n with 0 => e1 | 1 => e2 | _ => e3 end)%nat;
     now_iso := js "2025-03-25T12:00:00.000Z";
     uuidv4 := js "0b5c6f1e-6f0a-4c57-9d0c-3f2f4f1f7a11" |}.

Definition sample_payload : TradeWebhookPayload :=
  {| hsCode := js "1234567890";
     hsCodeDescription := placeholder;
     tradeType := Import;
     timestamp := js "2025-03-25T12:00:00.000Z";
     requestId := js "0b5c6f1e-6f0a-4c57-9d0c-3f2f4f1f7a11" |}.

Lemma retry_ignores_failure_class_witness :
  let w := always_rejecting (http 400 "Request failed with status code 400")
                            (http 401 "Request failed with status code 401")
                            (http 500 "Request failed with status code 500") in
  makeRequest w sample_payload 1 init
  = makeRequest w sample_payload 2 (backed_off sample_payload 1 init)
  /\ snd (makeRequest w sample_payload 1 init)
     = Throw (js "Server error: Failed to process trade data").
Proof.
  intros w. split.
  - apply (proj1 retry_ignores_failure_class w sample_payload 1%nat init
             (http 400 "Request failed with status code 400")).
    + unfold MAX_RETRIES. lia.
    + reflexivity.
  - rewrite (proj2 retry_ignores_failure_class w sample_payload init
               (http 400 "Request failed with status code 400")
               (http 401 "Request failed with status code 401")
               (http 500 "Request failed with status code 500")
               eq_refl eq_refl eq_refl).
    reflexivity.
Defined.

Lemma makeRequest_exhausted w p st e1 e2 e3 :
  endpoint w (sent st) p = Rejected e1 ->
  endpoint w (S (sent st)) p = Rejected e2 ->
  endpoint w (S (S (sent st))) p = Rejected e3 ->
  snd (makeRequest w p 1 st) = Throw (terminal_error e3).
Proof.
  intros H1 H2 H3.
  rewrite makeRequest_unfold, H1. cbn [Nat.ltb Nat.leb MAX_RETRIES Nat.add].
  rewrite makeRequest_unfold, sent_backed_off, H2.
  cbn [Nat.ltb Nat.leb MAX_RETRIES Nat.add].
  rewrite makeRequest_unfold, !sent_backed_off, H3. reflexivity.
Qed.

(** C4. Whatever the endpoint answers, [makeRequest] sends the payload one,
    two or three times; what reaches the network and the timer is exactly
    the schedule of that many attempts: the same post each time (same body,
    so same [requestId]), with a wait of 1000 * (k - 1) ms before attempt k. *)
Theorem at_most_three_attempts_linear_backoff w p st :
  exists n evs,
    (1 <= n <= MAX_RETRIES)%nat
    /\ sent (fst (makeRequest w p 1 st)) = (sent st + n)%nat
    /\ trace (fst (makeRequest w p 1 st)) = trace st ++ evs
    /\ wire evs = schedule p n.
Proof.
  rewrite makeRequest_unfold.
  destruct (endpoint w (sent st) p) as [d1|e1].
  { exists 1%nat, [post_of p]. repeat split; try reflexivity; unfold MAX_RETRIES; cbn; lia. }
  cbn [Nat.ltb Nat.leb MAX_RETRIES Nat.add].
  rewrite makeRequest_unfold, sent_backed_off.
  destruct (endpoint w (S (sent st)) p) as [d2|e2].
  { exists 2%nat, [post_of p; ConsoleLog (retry_message 1); Delay 1000; post_of p].
    cbn [fst posted sent trace]. rewrite trace_backed_off, <- app_assoc.
    repeat split; try reflexivity; unfold MAX_RETRIES; cbn; lia. }
  cbn [Nat.ltb Nat.leb MAX_RETRIES Nat.add].
  rewrite makeRequest_unfold, !sent_backed_off.
  exists 3%nat,
    [post_of p; ConsoleLog (retry_message 1); Delay 1000;
     post_of p; ConsoleLog (retry_message 2); Delay 2000; post_of p].
  destruct (endpoint w (S (S (sent st))) p) as [d3|e3];
    cbn [Nat.ltb Nat.leb MAX_RETRIES Nat.add fst posted sent trace];
    rewrite !trace_backed_off, <- !app_assoc;
    repeat split; try reflexivity; unfold MAX_RETRIES; cbn; lia.
Qed.

(** The error taxonomy of the dispatcher, in the spec's words. *)
Inductive ErrorClassification :=
| Timeout
| NetworkUnreachable
| InvalidRequest
| Unauthorized
| ServerError
| Unknown (underlying : jsstring).

Definition has_code (e : Failure) (c : string) : Prop := code e = Some (js c).

(** A rejection that carries neither of the two transport codes. *)
Definition got_response (e : Failure) : Prop :=
  isAxiosError e = true /\ ~ has_code e "ECONNABORTED" /\ ~ has_code e "ERR_NETWORK".

(** A rejection that is none of the five named classes: not an axios error,
    or a response with a status other than 400, 401 and 500. *)
Definition unclassed (e : Failure) : Prop :=
  isAxiosError e = false
  \/ (got_response e /\ status e <> Some 400%Z /\ status e <> Some 401%Z
      /\ status e <> Some 500%Z).

(** Which class a rejection belongs to, in the spec's words: the timeout
    abort and the unreachable network are told by the transport's code, the
    HTTP classes by the status of the response, everything else is unknown
    and carries the underlying message; when the rejection has no message,
    or an empty one, the unknown class carries the text "Unknown error". *)
Inductive classified (e : Failure) : ErrorClassification -> Prop :=
| is_timeout :
    isAxiosError e = true -> has_code e "ECONNABORTED" -> classified e Timeout
| is_unreachable :
    isAxiosError e = true -> has_code e "ERR_NETWORK" ->
    classified e NetworkUnreachable
| is_http_400 :
    got_response e -> status e = Some 400%Z -> classified e InvalidRequest
| is_http_401 :
    got_response e -> status e = Some 401%Z -> classified e Unauthorized
| is_http_500 :
    got_response e -> status e = Some 500%Z -> classified e ServerError
| is_other_with_message c s :
    unclassed e -> message e = Some (c :: s) ->
    classified e (Unknown (c :: s))
| is_other_without_message :
    unclassed e -> message e = None \/ message e = Some [] ->
    classified e (Unknown (js "Unknown error")).

(** The message each class is surfaced with. *)
Definition surfaced (c : ErrorClassification) : jsstring :=
  match c with
  | Timeout => js "Request timed out. Please try again."
  | NetworkUnreachable => js "Network error. Please check your internet connection."
  | InvalidRequest => js "Invalid request: Please check HTS code format and trade type"
  | Unauthorized => js "Unauthorized: Authentication failed"
  | ServerError => js "Server error: Failed to process trade data"
  | Unknown underlying => js "Failed to process trade data: " ++ underlying
  end.

Lemma code_test e c :
  match code e with Some c' => jsstring_eqb c' (js c) | None => false end = true
  <-> has_code e c.
Proof.
  unfold has_code. destruct (code e) as [c'|].
  - rewrite jsstring_eqb_eq. split; congruence.
  - split; discriminate.
Qed.

Lemma unclassed_is_unknown e :
  unclassed e ->
  exists c, classified e c
    /\ js "Failed to process trade data: "
         ++ or_else (message e) (js "Unknown error") = surfaced c.
Proof.
  intros Hu. destruct (message e) as [[|c s]|] eqn:Hm.
  - exists (Unknown (js "Unknown error")).
    split; [apply is_other_without_message; auto|reflexivity].
  - exists (Unknown (c :: s)).
    split; [now apply is_other_with_message|reflexivity].
  - exists (Unknown (js "Unknown error")).
    split; [apply is_other_without_message; auto|reflexivity].
Qed.

Lemma terminal_error_classified e :
  exists c, classified e c /\ terminal_error e = surfaced c.
Proof.
  unfold terminal_error.
  destruct (isAxiosError e) eqn:Hax.
  2:{ apply unclassed_is_unknown. now left. }
  destruct (match code e with
            | Some c => jsstring_eqb c (js "ECONNABORTED") | None => false
            end) eqn:Ht.
  { exists Timeout. split; [|reflexivity]. apply is_timeout; [assumption|].
    now apply code_test. }
  destruct (match code e with
            | Some c => jsstring_eqb c (js "ERR_NETWORK") | None => false
            end) eqn:Hn.
  { exists NetworkUnreachable. split; [|reflexivity].
    apply is_unreachable; [assumption|]. now apply code_test. }
  assert (Hresp : got_response e).
  { repeat split; [assumption| |]; intros Hc; apply code_test in Hc; congruence. }
  assert (Hother :
    status e <> Some 400%Z -> status e <> Some 401%Z -> status e <> Some 500%Z ->
    exists c, classified e c
      /\ js "Failed to process trade data: "
           ++ or_else (message e) (js "Unknown error") = surfaced c).
  { intros. apply unclassed_is_unknown. right. auto. }
  destruct (status e) as [s|] eqn:Hs; [|apply Hother; discriminate].
  destruct (Z.eq_dec s 400) as [->|H400];
    [exists InvalidRequest; split; [now apply is_http_400|reflexivity]|].
  destruct (Z.eq_dec s 401) as [->|H401];
    [exists Unauthorized; split; [now apply is_http_401|reflexivity]|].
  destruct (Z.eq_dec s 500) as [->|H500];
    [exists ServerError; split; [now apply is_http_500|reflexivity]|].
  destruct Hother as [c [Hc Hmsg]]; try congruence.
  exists c. split; [assumption|]. rewrite <- Hmsg.
  destruct s as [|q|q]; try reflexivity.
  do 9 (destruct q as [q|q|]; try reflexivity); congruence.
Qed.

(** A rejection belongs to one class only. *)
Lemma classified_functional e c c' : classified e c -> classified e c' -> c = c'.
Proof.
  intros H H'; destruct H; destruct H'; try reflexivity;
    unfold unclassed, got_response, has_code in *;
    repeat match goal with
           | H : _ /\ _ |- _ => destruct H
           | H : _ \/ _ |- _ => destruct H
           end;
    solve [ congruence | tauto
          | match goal with
            | H : code e = _, H' : code e = _ |- _ =>
                rewrite H in H'; vm_compute in H'; discriminate H'
            end ].
Qed.

(** C7. When all three attempts are rejected, the error thrown is the
    message of the class of the last rejection: timeout abort, unreachable
    network, HTTP 400, 401, 500 (with the text
    "Server error: Failed to process trade data"), and otherwise the unknown
    class with the underlying message of that rejection (the text
    "Unknown error" when it has none). *)
Theorem exhausted_failure_is_classified w p st e1 e2 e3 :
  endpoint w (sent st) p = Rejected e1 ->
  endpoint w (S (sent st)) p = Rejected e2 ->
  endpoint w (S (S (sent st))) p = Rejected e3 ->
  exists c, classified e3 c
            /\ snd (makeRequest w p 1 st) = Throw (surfaced c).
Proof.
  intros H1 H2 H3.
  destruct (terminal_error_classified e3) as [c [Hc Hmsg]].
  exists c. split; [assumption|].
  rewrite (makeRequest_exhausted w p st H1 H2 H3). now rewrite Hmsg.
Qed.

Lemma exhausted_failure_is_classified_witness :
  let e := http 500 "Request failed with status code 500" in
  exists c, classified e c
    /\ snd (makeRequest (always_rejecting e e e) sample_payload 1 init)
       = Throw (surfaced c).
Proof.
  intros e.
  exact (exhausted_failure_is_classified (always_rejecting e e e)
           sample_payload init (e1:=e) (e2:=e) (e3:=e) eq_refl eq_refl eq_refl).
Defined.

(** What the description lookup answers for each outcome of the store query,
    in the spec's words. *)
Inductive lookup_answer : QueryOutcome -> jsstring -> Prop :=
| found_description row c s :
    hs_code_description row = Some (c :: s) ->
    lookup_answer (QueryResult (Some row) false) (c :: s)
| found_empty row :
    hs_code_description row = None \/ hs_code_description row = Some [] ->
    lookup_answer (QueryResult (Some row) false) placeholder
| no_record : lookup_answer (QueryResult None false) placeholder
| query_error data : lookup_answer (QueryResult data true) placeholder
| exception : lookup_answer QueryThrows placeholder.

(** C9. The lookup always resolves, never rejects: with the description of
    the record found, and with "Description not available" when that field is
    empty, when there is no record, on a query error and on an exception. *)
Theorem description_lookup_never_fails w hsCode st :
  placeholder = js "Description not available"
  /\ exists d,
       snd (getHSCodeDescription w hsCode st) = Ret d
       /\ lookup_answer (hs_codes_single w hsCode) d.
Proof.
  split; [reflexivity|].
  unfold getHSCodeDescription.
  destruct (hs_codes_single w hsCode) as [|[row|] [|]];
    try (eexists; split; [reflexivity|constructor]).
  destruct (hs_code_description row) as [[|c s]|] eqn:Hd;
    eexists; (split; [reflexivity|]).
  - apply found_empty. now right.
  - now apply found_description.
  - apply found_empty. now left.
Qed.

End SubmissionFacts.

(* ------------------------------------------------------------------------- *)
(** ** The validator *)

Module ValidatorFacts.
Import Submission.

Lemma trimStart_split s :
  exists pre, s = pre ++ trimStart s /\ forallb is_white_space pre = true.
Proof.
  induction s as [|c s [pre [Heq Hws]]]; [now exists []|].
  cbn. destruct (is_white_space c) eqn:Hc.
  - exists (c :: pre). cbn. rewrite Hc, Hws. split; [now f_equal|reflexivity].
  - now exists [].
Qed.

Lemma trimStart_skips pre r :
  forallb is_white_space pre = true -> trimStart (pre ++ r) = trimStart r.
Proof.
  induction pre as [|c pre IH]; [reflexivity|]. cbn.
  intros H. apply andb_true_iff in H as [Hc Hpre]. rewrite Hc. now apply IH.
Qed.

Lemma trimStart_keeps c r :
  is_white_space c = false -> trimStart (c :: r) = c :: r.
Proof. intros H. cbn. now rewrite H. Qed.

Lemma trimEnd_split s :
  exists post, s = trimEnd s ++ post /\ forallb is_white_space post = true.
Proof.
  unfold trimEnd. destruct (trimStart_split (rev s)) as [pre [Heq Hws]].
  exists (rev pre). split.
  - rewrite <- rev_app_distr, <- Heq. now rewrite rev_involutive.
  - rewrite forallb_forall in *. intros x Hx. apply Hws. now apply in_rev.
Qed.

Lemma digit_not_white_space c : is_digit c = true -> is_white_space c = false.
Proof.
  unfold is_digit, is_white_space. intros H.
  apply andb_true_iff in H as [H1 H2].
  apply N.leb_le in H1. apply N.leb_le in H2.
  repeat rewrite orb_false_iff. repeat split;
    try (apply N.eqb_neq; lia).
  apply andb_false_iff. left. apply N.leb_gt. lia.
Qed.

Lemma forallb_rev (p : N -> bool) l :
  forallb p l = true -> forallb p (rev l) = true.
Proof.
  rewrite !forallb_forall. intros H x Hx. apply H. now apply in_rev.
Qed.

(** Trimming removes exactly the white space around a block of digits. *)
Lemma trim_block pre c t post :
  forallb is_white_space pre = true ->
  forallb is_white_space post = true ->
  forallb is_digit (c :: t) = true ->
  trim (pre ++ (c :: t) ++ post) = c :: t.
Proof.
  intros Hpre Hpost Hd. unfold trim, trimEnd.
  rewrite trimStart_skips by assumption.
  pose proof Hd as Hc. cbn in Hc. apply andb_true_iff in Hc as [Hc _].
  change ((c :: t) ++ post) with (c :: (t ++ post)).
  rewrite trimStart_keeps by now apply digit_not_white_space.
  change (c :: (t ++ post)) with ((c :: t) ++ post).
  rewrite rev_app_distr, trimStart_skips by now apply forallb_rev.
  pose proof (forallb_rev _ _ Hd) as Hrev.
  destruct (rev (c :: t)) as [|x l] eqn:Hr.
  - apply (f_equal (@rev N)) in Hr. rewrite rev_involutive in Hr. discriminate.
  - cbn in Hrev. apply andb_true_iff in Hrev as [Hx _].
    rewrite trimStart_keeps by now apply digit_not_white_space.
    rewrite <- Hr. apply rev_involutive.
Qed.

Lemma trim_split s :
  exists pre post,
    s = pre ++ trim s ++ post
    /\ forallb is_white_space pre = true
    /\ forallb is_white_space post = true.
Proof.
  destruct (trimStart_split s) as [pre [Hs Hpre]].
  destruct (trimEnd_split (trimStart s)) as [post [Ht Hpost]].
  exists pre, post. unfold trim. rewrite <- Ht. auto.
Qed.

Lemma match_here_class_run p n : forall i s,
  match_here (times n (Class p) ++ [AssertEnd]) i s = true
  <-> length s = n /\ forallb p s = true.
Proof.
  induction n as [|n IH]; intros i s; cbn.
  - destruct s; cbn; split; intros H; try discriminate; auto.
    destruct H; discriminate.
  - destruct s as [|c s]; cbn.
    + split; [discriminate|intros [H _]; discriminate].
    + unfold times in IH. rewrite !andb_true_iff, IH.
      intuition lia.
Qed.

Lemma no_match_after_start r s : forall i,
  test_from (AssertStart :: r) (S i) s = false.
Proof.
  induction s as [|c s IH]; intros i; cbn; [reflexivity|]. apply IH.
Qed.

(** [/^\d{10}$/.test(s)] holds exactly of the strings of ten digits. *)
Lemma hts_pattern_test s :
  test hts_pattern s = true <-> length s = 10%nat /\ forallb is_digit s = true.
Proof.
  unfold test, hts_pattern.
  rewrite <- (match_here_class_run is_digit 10 0 s).
  change ([AssertStart] ++ times 10 (Class is_digit) ++ [AssertEnd])
    with (AssertStart :: (times 10 (Class is_digit) ++ [AssertEnd])).
  destruct s as [|c s];
    cbn [test_from match_here Nat.eqb andb].
  - now rewrite orb_false_r.
  - now rewrite no_match_after_start, orb_false_r.
Qed.

(** The code rule in the spec's words: surrounding white space apart, the
    string is exactly ten decimal digits. *)
Definition ten_digits_after_trim (s : jsstring) : Prop :=
  exists pre d post,
    s = pre ++ d ++ post
    /\ Forall (fun c => is_white_space c = true) pre
    /\ Forall (fun c => is_white_space c = true) post
    /\ length d = 10%nat
    /\ Forall (fun c => (0x30 <= c <= 0x39)%N) d.

Definition well_formed_code (hsCode : JsVal) : Prop :=
  exists s, hsCode = JStr s /\ ten_digits_after_trim s.

Definition recognised_direction (tradeType : JsVal) : Prop :=
  tradeType = JStr (js "Import") \/ tradeType = JStr (js "Export").

Lemma is_digit_iff c : is_digit c = true <-> (0x30 <= c <= 0x39)%N.
Proof.
  unfold is_digit. rewrite andb_true_iff, !N.leb_le. tauto.
Qed.

Lemma forallb_digits d :
  forallb is_digit d = true <-> Forall (fun c => (0x30 <= c <= 0x39)%N) d.
Proof.
  rewrite forallb_forall, Forall_forall.
  split; intros H x Hx; apply is_digit_iff; auto.
Qed.

Lemma code_check s :
  test hts_pattern (trim s) = true <-> ten_digits_after_trim s.
Proof.
  rewrite hts_pattern_test. split.
  - intros [Hlen Hd]. destruct (trim_split s) as [pre [post [Hs [Hpre Hpost]]]].
    exists pre, (trim s), post. repeat split; try assumption.
    + apply Forall_forall. rewrite forallb_forall in Hpre. auto.
    + apply Forall_forall. rewrite forallb_forall in Hpost. auto.
    + now apply forallb_digits.
  - intros [pre [d [post [Hs [Hpre [Hpost [Hlen Hd]]]]]]].
    apply forallb_digits in Hd.
    assert (Hpre' : forallb is_white_space pre = true)
      by (apply forallb_forall; rewrite Forall_forall in Hpre; auto).
    assert (Hpost' : forallb is_white_space post = true)
      by (apply forallb_forall; rewrite Forall_forall in Hpost; auto).
    destruct d as [|c t]; [discriminate|].
    subst s. rewrite trim_block by assumption. auto.
Qed.

Lemma strict_eq_str_iff v lit : strict_eq_str v lit = true <-> v = JStr lit.
Proof.
  destruct v; cbn; try (split; [discriminate|congruence]).
  rewrite jsstring_eqb_eq. split; congruence.
Qed.

Definition code_error : jsstring :=
  js "Invalid HTS code format. Must be exactly 10 digits.".

Definition direction_error : jsstring :=
  js "Invalid trade type. Must be " ++ dquote ++ js "Import" ++ dquote
     ++ js " or " ++ dquote ++ js "Export" ++ dquote ++ js ".".

Lemma code_guard hsCode :
  negb (JsType_eqb (typeof hsCode) TString)
  || negb (match hsCode with
           | JStr s => test hts_pattern (trim s)
           | _ => false
           end) = false
  <-> well_formed_code hsCode.
Proof.
  unfold well_formed_code.
  destruct hsCode as [| |b|x|s|]; cbn;
    try (split; [discriminate|intros [s' [H _]]; discriminate]).
  rewrite negb_false_iff, code_check. split.
  - intros H. now exists s.
  - intros [s' [H Hs]]. now injection H as ->.
Qed.

Lemma direction_guard tradeType :
  negb (strict_eq_str tradeType (js "Import"))
  && negb (strict_eq_str tradeType (js "Export")) = false
  <-> recognised_direction tradeType.
Proof.
  unfold recognised_direction.
  rewrite andb_false_iff, !negb_false_iff, !strict_eq_str_iff. tauto.
Qed.

(** C8. The validator passes exactly when the code is a string that, white
    space around it apart, is ten decimal digits and the direction is
    "Import" or "Export"; any other code (also a value that is not a string)
    is refused with the format error, a good code with another direction
    with the direction error; and a refusal ends the submission before the
    description is looked up or a payload is built or sent. *)
Theorem validator_accepts_exactly w hsCode tradeType st :
  (validate hsCode tradeType = None
   <-> well_formed_code hsCode /\ recognised_direction tradeType)
  /\ (~ well_formed_code hsCode -> validate hsCode tradeType = Some code_error)
  /\ (well_formed_code hsCode -> ~ recognised_direction tradeType ->
      validate hsCode tradeType = Some direction_error)
  /\ (forall msg, validate hsCode tradeType = Some msg ->
      processTradeData w hsCode tradeType st
      = (emit (ConsoleError (js "processTradeData error:")) st, Throw msg)).
Proof.
  assert (Hstop : forall msg, validate hsCode tradeType = Some msg ->
      processTradeData w hsCode tradeType st
      = (emit (ConsoleError (js "processTradeData error:")) st, Throw msg)).
  { intros msg H. unfold processTradeData. now rewrite H. }
  pose proof (code_guard hsCode) as Hc.
  pose proof (direction_guard tradeType) as Hd.
  unfold validate in *.
  fold code_error. fold direction_error.
  destruct (negb (JsType_eqb (typeof hsCode) TString)
            || negb (match hsCode with
                     | JStr s => test hts_pattern (trim s)
                     | _ => false
                     end)).
  - assert (~ well_formed_code hsCode) by (intros H; apply Hc in H; discriminate).
    repeat split; try tauto; try discriminate.
  - assert (well_formed_code hsCode) by now apply Hc.
    destruct (negb (strict_eq_str tradeType (js "Import"))
              && negb (strict_eq_str tradeType (js "Export"))).
    + assert (~ recognised_direction tradeType)
        by (intros H'; apply Hd in H'; discriminate).
      repeat split; try tauto; try discriminate.
    + assert (recognised_direction tradeType) by now apply Hd.
      repeat split; try tauto; discriminate.
Qed.

Definition quiet_world : World :=
  {| hs_codes_single := fun _ => QueryResult None true;
     endpoint := fun _ _ => Responded JObj;
     now_iso := js "2025-03-25T12:00:00.000Z";
     uuidv4 := js "0b5c6f1e-6f0a-4c57-9d0c-3f2f4f1f7a11" |}.

Lemma validator_accepts_exactly_witness :
  validate (JStr (js " 1234567890 ")) (JStr (js "Export")) = None
  /\ validate (JStr (js "12345")) (JStr (js "Import")) = Some code_error
  /\ validate (JStr (js "1234567890")) (JStr (js "import")) = Some direction_error
  /\ processTradeData quiet_world (JStr (js "12345")) (JStr (js "Import")) init
     = (emit (ConsoleError (js "processTradeData error:")) init, Throw code_error).
Proof.
  assert (Hgood : forall s, test hts_pattern (trim s) = true ->
                            well_formed_code (JStr s)).
  { intros s H. exists s. split; [reflexivity|now apply code_check]. }
  assert (Hbad : forall s, test hts_pattern (trim s) = false ->
                           ~ well_formed_code (JStr s)).
  { intros s H [s' [[= <-] Hs]]. apply code_check in Hs. congruence. }
  split; [|split; [|split]].
  - apply (proj1 (validator_accepts_exactly quiet_world
                    (JStr (js " 1234567890 ")) (JStr (js "Export")) init)).
    split; [apply Hgood; vm_compute; reflexivity|right; reflexivity].
  - apply (proj1 (proj2 (validator_accepts_exactly quiet_world
                           (JStr (js "12345")) (JStr (js "Import")) init))).
    apply Hbad. vm_compute. reflexivity.
  - apply (proj1 (proj2 (proj2 (validator_accepts_exactly quiet_world
                           (JStr (js "1234567890")) (JStr (js "import")) init)))).
    + apply Hgood. vm_compute. reflexivity.
    + intros [H|H]; vm_compute in H; discriminate H.
  - apply (proj2 (proj2 (proj2 (validator_accepts_exactly quiet_world
                           (JStr (js "12345")) (JStr (js "Import")) init)))).
    vm_compute. reflexivity.
Defined.

End ValidatorFacts.

(* ------------------------------------------------------------------------- *)
(** ** Order of period keys and sorting *)

Module OrderFacts.

Definition key_lt (a b : jsstring) : Prop := localeCompare a b = (-1)%Z.

Lemma localeCompare_range a : forall b,
  localeCompare a b = (-1)%Z \/ localeCompare a b = 0%Z \/ localeCompare a b = 1%Z.
Proof.
  induction a as [|x a IH]; intros [|y b]; cbn; auto.
  destruct (N.compare x y); auto.
Qed.

Lemma localeCompare_eq a : forall b, localeCompare a b = 0%Z <-> a = b.
Proof.
  induction a as [|x a IH]; intros [|y b]; cbn;
    try (split; [discriminate|congruence]); [tauto|].
  destruct (N.compare_spec x y) as [->|Hlt|Hgt].
  - rewrite IH. split; congruence.
  - split; [discriminate|]. intros [= -> _]. lia.
  - split; [discriminate|]. intros [= -> _]. lia.
Qed.

Lemma localeCompare_antisym a : forall b,
  localeCompare b a = (- localeCompare a b)%Z.
Proof.
  induction a as [|x a IH]; intros [|y b]; cbn; try reflexivity.
  rewrite (N.compare_antisym x y).
  destruct (N.compare x y); cbn; auto.
Qed.

Lemma key_lt_trans a : forall b c, key_lt a b -> key_lt b c -> key_lt a c.
Proof.
  unfold key_lt.
  induction a as [|x a IH]; intros [|y b] [|z c]; cbn; try congruence.
  destruct (N.compare_spec x y) as [->|Hxy|Hxy]; try discriminate.
  - destruct (N.compare_spec y z) as [->|Hyz|Hyz]; try discriminate.
    + apply IH.
    + reflexivity.
  - destruct (N.compare_spec y z) as [->|Hyz|Hyz]; try discriminate.
    + intros _ _. apply N.compare_lt_iff in Hxy. now rewrite Hxy.
    + intros _ _. assert (H : (x < z)%N) by lia.
      apply N.compare_lt_iff in H. now rewrite H.
Qed.

Lemma key_lt_irrefl a : ~ key_lt a a.
Proof.
  unfold key_lt. rewrite (proj2 (localeCompare_eq a a) eq_refl). discriminate.
Qed.

Lemma key_lt_asym a b : key_lt a b -> ~ key_lt b a.
Proof.
  intros H H'. apply (key_lt_irrefl (key_lt_trans H H')).
Qed.

(** A common prefix does not count. *)
Lemma localeCompare_prefix p a b :
  localeCompare (p ++ a) (p ++ b) = localeCompare a b.
Proof.
  induction p as [|x p IH]; [reflexivity|]. cbn. now rewrite N.compare_refl.
Qed.

Section SortFacts.
Variable A : Type.
Variable compareFn : A -> A -> Z.

Lemma insert_sorted_perm x l : Permutation (x :: l) (insert_sorted compareFn x l).
Proof.
  induction l as [|y l IH]; cbn; [reflexivity|].
  destruct (0 <? compareFn x y)%Z; [|reflexivity].
  rewrite perm_swap. now apply perm_skip.
Qed.

Lemma sort_perm l : Permutation l (sort compareFn l).
Proof.
  induction l as [|x l IH]; cbn; [constructor|].
  rewrite <- insert_sorted_perm. now apply perm_skip.
Qed.


(** Sorting by a key commutes with reading the key off. *)
Lemma sort_by_key (B : Type) (key : A -> B) (compareKey : B -> B -> Z) :
  (forall a b, compareFn a b = compareKey (key a) (key b)) ->
  forall l, map key (sort compareFn l) = sort compareKey (map key l).
Proof.
  intros Hkey.
  assert (Hins : forall x l, map key (insert_sorted compareFn x l)
                             = insert_sorted compareKey (key x) (map key l)).
  { intros x l. induction l as [|y l IH]; cbn; [reflexivity|].
    rewrite Hkey. destruct (0 <? compareKey (key x) (key y))%Z; cbn; congruence. }
  induction l as [|x l IH]; cbn; [reflexivity|]. now rewrite Hins, IH.
Qed.

(** Sorting a list built from its keys sorts the keys. *)
Lemma sort_of_keys (B : Type) (build : B -> A) (compareKey : B -> B -> Z) :
  (forall a b, compareFn (build a) (build b) = compareKey a b) ->
  forall ks, sort compareFn (map build ks) = map build (sort compareKey ks).
Proof.
  intros Hkey.
  assert (Hins : forall x l, insert_sorted compareFn (build x) (map build l)
                             = map build (insert_sorted compareKey x l)).
  { intros x l. induction l as [|y l IH]; cbn; [reflexivity|].
    rewrite Hkey. destruct (0 <? compareKey x y)%Z; cbn; congruence. }
  induction ks as [|x l IH]; cbn; [reflexivity|]. now rewrite IH, Hins.
Qed.
End SortFacts.

Definition key_le (a b : jsstring) : Prop := (localeCompare a b <= 0)%Z.

Lemma key_le_cases a b : key_le a b <-> key_lt a b \/ a = b.
Proof.
  unfold key_le, key_lt. rewrite <- localeCompare_eq.
  destruct (localeCompare_range a b) as [H|[H|H]]; rewrite H; lia.
Qed.

Lemma key_le_trans a b c : key_le a b -> key_le b c -> key_le a c.
Proof.
  rewrite !key_le_cases. intros [H| ->] [H'| ->]; auto.
  left. eapply key_lt_trans; eassumption.
Qed.

Lemma key_le_total a b : ~ key_le a b -> key_le b a.
Proof.
  unfold key_le. rewrite (localeCompare_antisym a b). lia.
Qed.

Lemma insert_sorted_sorted x l :
  StronglySorted key_le l -> StronglySorted key_le (insert_sorted localeCompare x l).
Proof.
  induction 1 as [|y l Hs IH Hy]; cbn; [repeat constructor|].
  destruct (0 <? localeCompare x y)%Z eqn:Hc.
  - constructor; [assumption|].
    apply Z.ltb_lt in Hc.
    assert (Hyx : key_le y x) by (apply key_le_total; unfold key_le; lia).
    rewrite Forall_forall in *. intros z Hz.
    apply (Permutation_in _ (Permutation_sym (insert_sorted_perm localeCompare x l))) in Hz.
    destruct Hz as [<-|Hz]; auto.
  - apply Z.ltb_ge in Hc. constructor; [now constructor|].
    constructor; [exact Hc|].
    rewrite Forall_forall in *. intros z Hz.
    eapply key_le_trans; [exact Hc|auto].
Qed.

Lemma sort_sorted l : StronglySorted key_le (sort localeCompare l).
Proof.
  induction l as [|x l IH]; cbn; [constructor|]. now apply insert_sorted_sorted.
Qed.

(** Without repeated keys the order is strict. *)
Lemma sorted_strict l :
  NoDup l -> StronglySorted key_le l -> StronglySorted key_lt l.
Proof.
  induction 2 as [|x l Hs IH Hx]; [constructor|].
  inversion H as [|? ? Hnotin Hnd]; subst.
  constructor; [auto|].
  rewrite Forall_forall in *. intros y Hy.
  destruct (proj1 (key_le_cases x y) (Hx y Hy)) as [Hlt| ->]; [assumption|].
  contradiction.
Qed.

Lemma sort_strict l : NoDup l -> StronglySorted key_lt (sort localeCompare l).
Proof.
  intros Hnd. apply sorted_strict; [|apply sort_sorted].
  eapply Permutation_NoDup; [apply sort_perm|assumption].
Qed.

(** Two strictly sorted lists with the same elements are the same list. *)
Lemma strictly_sorted_unique l : forall l',
  StronglySorted key_lt l -> StronglySorted key_lt l' ->
  (forall k, In k l <-> In k l') -> l = l'.
Proof.
  induction l as [|x l IH]; intros [|y l'] Hs Hs' Hin.
  - reflexivity.
  - destruct (proj2 (Hin y)); now left.
  - destruct (proj1 (Hin x)); now left.
  - inversion Hs as [|? ? Hsl Hx]; inversion Hs' as [|? ? Hsl' Hy]; subst.
    rewrite Forall_forall in Hx, Hy.
    assert (Hxy : x = y).
    { destruct (proj1 (Hin x) (or_introl eq_refl)) as [Heq|Hxin]; [auto|].
      destruct (proj2 (Hin y) (or_introl eq_refl)) as [Heq|Hyin]; [auto|].
      destruct (key_lt_asym (Hx y Hyin) (Hy x Hxin)). }
    subst y. f_equal. apply IH; try assumption.
    intros k. split; intros Hk.
    + destruct (proj1 (Hin k) (or_intror Hk)) as [<-|]; [|assumption].
      destruct (key_lt_irrefl (Hx _ Hk)).
    + destruct (proj2 (Hin k) (or_intror Hk)) as [<-|]; [|assumption].
      destruct (key_lt_irrefl (Hy _ Hk)).
Qed.

End OrderFacts.

(* ------------------------------------------------------------------------- *)
(** ** Decimal numerals and period keys *)

Module KeyFacts.
Import Aggregator OrderFacts.

Lemma js_inj s s' : js s = js s' -> s = s'.
Proof.
  unfold js. intros H.
  rewrite <- (string_of_list_ascii_of_string s),
          <- (string_of_list_ascii_of_string s').
  f_equal. revert H.
  generalize (list_ascii_of_string s) (list_ascii_of_string s').
  induction l as [|a l IH]; intros [|b l']; cbn; try discriminate; [reflexivity|].
  intros [= Hab Hl]. f_equal; [|now apply IH].
  rewrite <- (ascii_N_embedding a), <- (ascii_N_embedding b). now f_equal.
Qed.

Lemma uint_digits d : forallb is_digit (js (NilEmpty.string_of_uint d)) = true.
Proof. induction d; cbn; auto. Qed.

Lemma uint_nonempty d : d <> Decimal.Nil -> js (NilEmpty.string_of_uint d) <> [].
Proof. destruct d; cbn; congruence. Qed.

(** The numeral of an integer: an optional minus sign, then at least one
    digit. *)
Lemma dec_shape z :
  exists sign c digits,
    dec z = sign ++ c :: digits
    /\ (sign = [] \/ sign = [0x2D%N])
    /\ forallb is_digit (c :: digits) = true.
Proof.
  assert (Hpos : forall p, exists c digits,
             js (NilZero.string_of_uint (Pos.to_uint p)) = c :: digits
             /\ forallb is_digit (c :: digits) = true).
  { intros p. pose proof (DecimalPos.Unsigned.to_uint_nonnil p) as Hn.
    pose proof (uint_digits (Pos.to_uint p)) as Hd.
    pose proof (uint_nonempty Hn) as He.
    replace (NilZero.string_of_uint (Pos.to_uint p))
      with (NilEmpty.string_of_uint (Pos.to_uint p))
      by (revert Hn; generalize (Pos.to_uint p); intros d Hn; destruct d;
          (reflexivity || congruence)).
    destruct (js (NilEmpty.string_of_uint (Pos.to_uint p))) as [|c digits];
      [congruence|]. now exists c, digits. }
  destruct z as [|p|p]; unfold dec; cbn [Z.to_int NilZero.string_of_int].
  - exists [], 0x30%N, []. auto.
  - destruct (Hpos p) as [c [digits [Heq Hd]]].
    exists [], c, digits. auto.
  - destruct (Hpos p) as [c [digits [Heq Hd]]].
    exists [0x2D%N], c, digits. repeat split; auto.
    change (js (String "-" (NilZero.string_of_uint (Pos.to_uint p))))
      with (0x2D%N :: js (NilZero.string_of_uint (Pos.to_uint p))).
    now rewrite Heq.
Qed.

Lemma to_int_proper z : Z.to_int z <> Decimal.Pos Decimal.Nil
                        /\ Z.to_int z <> Decimal.Neg Decimal.Nil.
Proof.
  destruct z as [|p|p]; cbn; split; try discriminate;
    intros [= H]; now apply (DecimalPos.Unsigned.to_uint_nonnil p).
Qed.

Lemma dec_inj z z' : dec z = dec z' -> z = z'.
Proof.
  unfold dec. intros H. apply js_inj in H.
  apply DecimalZ.to_int_inj.
  destruct (to_int_proper z) as [H1 H2], (to_int_proper z') as [H1' H2'].
  pose proof (NilZero.isi _ H1 H2) as Hz.
  pose proof (NilZero.isi _ H1' H2') as Hz'.
  rewrite H in Hz. congruence.
Qed.

(** No numeral is a zero followed by one more character. *)
Lemma dec_not_padded z c : dec z <> [0x30%N; c].
Proof.
  unfold dec. intros H.
  destruct (NilZero.string_of_int (Z.to_int z)) as [|a0 [|a1 [|a2 s]]] eqn:Hs;
    try discriminate H.
  injection H as H0 _.
  assert (a0 = "0"%char)
    by (rewrite <- (ascii_N_embedding a0), H0; reflexivity).
  subst a0.
  destruct (to_int_proper z) as [H1 H2].
  pose proof (NilZero.isi _ H1 H2) as Hz. rewrite Hs in Hz.
  change (NilZero.int_of_string (String "0" (String a1 "")))
    with (option_map Decimal.Pos
            (uint_of_char "0" (uint_of_char a1 (Some Decimal.Nil)))) in Hz.
  destruct (uint_of_char a1 (Some Decimal.Nil)) as [d1|] eqn:Ha; [|discriminate].
  cbn in Hz. injection Hz as Hz.
  destruct z as [|p|p]; cbn in Hz; try discriminate.
  injection Hz as Hp.
  pose proof (DecimalPos.Unsigned.of_to p) as Hof. rewrite <- Hp in Hof.
  apply uint_of_char_spec in Ha.
  repeat match goal with H : _ \/ _ |- _ => destruct H end;
    match goal with H : _ /\ _ |- _ => destruct H as [_ ->] end;
    cbn in Hof; try discriminate; injection Hof as <-; cbn in Hp;
    discriminate.
Qed.

Lemma padStart_dec_inj m m' :
  padStart 2 0x30 (dec m) = padStart 2 0x30 (dec m') -> m = m'.
Proof.
  unfold padStart.
  pose proof (dec_not_padded m) as Hm. pose proof (dec_not_padded m') as Hm'.
  destruct (dec_shape m) as [sg [c [ds [He _]]]].
  destruct (dec_shape m') as [sg' [c' [ds' [He' _]]]].
  destruct (dec m) as [|x [|y r]] eqn:Hd;
    [destruct sg; discriminate| |];
    (destruct (dec m') as [|x' [|y' r']] eqn:Hd';
     [destruct sg'; discriminate| |]); cbn; intros H.
  - injection H as ->. apply dec_inj. congruence.
  - injection H as <- <- <-. destruct (Hm' x). reflexivity.
  - injection H as -> -> ->. destruct (Hm x'). reflexivity.
  - apply dec_inj. congruence.
Qed.

Lemma split_at_hyphen D : forall D' B B',
  forallb is_digit D = true -> forallb is_digit D' = true ->
  D ++ 0x2D%N :: B = D' ++ 0x2D%N :: B' -> D = D' /\ B = B'.
Proof.
  induction D as [|x D IH]; intros [|x' D'] B B'; cbn; intros HD HD' H.
  - now injection H.
  - injection H as <- _. discriminate.
  - injection H as -> _. discriminate.
  - injection H as -> H.
    apply andb_true_iff in HD as [_ HD]. apply andb_true_iff in HD' as [_ HD'].
    destruct (IH _ _ _ HD HD' H). split; congruence.
Qed.

(** Different periods have different keys. *)
Lemma monthKey_inj s s' :
  monthKey s = monthKey s' ->
  TradeStats.year_val s = TradeStats.year_val s'
  /\ TradeStats.month_val s = TradeStats.month_val s'.
Proof.
  unfold monthKey.
  change (js "-") with [0x2D%N].
  assert (forall y y' B B',
             dec y ++ [0x2D%N] ++ B = dec y' ++ [0x2D%N] ++ B' ->
             dec y = dec y' /\ B = B') as Hsplit.
  { clear. intros y y' B B'.
    destruct (dec_shape y) as [sg [c [ds [-> [Hsg Hd]]]]].
    destruct (dec_shape y') as [sg' [c' [ds' [-> [Hsg' Hd']]]]].
    pose proof Hd as Hc. pose proof Hd' as Hc'.
    cbn in Hc, Hc'.
    apply andb_true_iff in Hc as [Hc _]. apply andb_true_iff in Hc' as [Hc' _].
    destruct Hsg as [-> | ->], Hsg' as [-> | ->]; cbn [app]; intros H.
    - change (c :: ds ++ 0x2D%N :: B) with ((c :: ds) ++ 0x2D%N :: B) in H.
      change (c' :: ds' ++ 0x2D%N :: B') with ((c' :: ds') ++ 0x2D%N :: B') in H.
      destruct (split_at_hyphen _ _ _ _ Hd Hd' H). split; congruence.
    - injection H as -> _. discriminate.
    - injection H as <- _. discriminate.
    - injection H as -> H.
      cbn in Hd, Hd'.
      apply andb_true_iff in Hd as [_ Hd]. apply andb_true_iff in Hd' as [_ Hd'].
      destruct (split_at_hyphen _ _ _ _ Hd Hd' H). split; congruence. }
  intros H. apply Hsplit in H as [Hy Hm].
  split; [now apply dec_inj|now apply padStart_dec_inj].
Qed.

(** *** Keys of four-digit years and calendar months *)

Definition digit_unit (q : Z) : N := Z.to_N (48 + q).

Definition four_digits (y : Z) : jsstring :=
  [digit_unit (y / 1000); digit_unit (y / 100 mod 10);
   digit_unit (y / 10 mod 10); digit_unit (y mod 10)].

Definition two_digits (m : Z) : jsstring :=
  [digit_unit (m / 10); digit_unit (m mod 10)].

Lemma checked_on_range (f g : Z -> jsstring) (lo : Z) (n : nat) :
  forallb (fun i => jsstring_eqb (f (lo + Z.of_nat i)%Z) (g (lo + Z.of_nat i)%Z))
          (seq 0 n) = true ->
  forall z, (lo <= z < lo + Z.of_nat n)%Z -> f z = g z.
Proof.
  intros Hall z Hz. rewrite forallb_forall in Hall.
  specialize (Hall (Z.to_nat (z - lo))).
  replace (lo + Z.of_nat (Z.to_nat (z - lo)))%Z with z in Hall by lia.
  apply jsstring_eqb_eq, Hall, in_seq. lia.
Qed.

Lemma dec_four_digits y : (1000 <= y <= 9999)%Z -> dec y = four_digits y.
Proof.
  intros Hy.
  apply (@checked_on_range dec four_digits 1000 (Z.to_nat 9000)); [|lia].
  vm_compute. reflexivity.
Qed.

Lemma padStart_month m :
  (1 <= m <= 12)%Z -> padStart 2 0x30 (dec m) = two_digits m.
Proof.
  intros Hm.
  apply (@checked_on_range (fun m => padStart 2 0x30 (dec m)) two_digits
           1 (Z.to_nat 12)); [|lia].
  vm_compute. reflexivity.
Qed.

(** The dates the "YYYY-MM" format is made for. *)
Definition calendar (s : TradeStats.t) : Prop :=
  (1000 <= TradeStats.year_val s <= 9999)%Z
  /\ (1 <= TradeStats.month_val s <= 12)%Z.

(** [s] is strictly before [s'] in time. *)
Definition earlier (s s' : TradeStats.t) : Prop :=
  (TradeStats.year_val s < TradeStats.year_val s')%Z
  \/ (TradeStats.year_val s = TradeStats.year_val s'
      /\ (TradeStats.month_val s < TradeStats.month_val s')%Z).

Lemma monthKey_calendar s :
  calendar s ->
  monthKey s = four_digits (TradeStats.year_val s)
                 ++ [0x2D%N] ++ two_digits (TradeStats.month_val s).
Proof.
  intros [Hy Hm]. unfold monthKey.
  now rewrite dec_four_digits, padStart_month.
Qed.

Lemma key_lt_head x y a b : (x < y)%N -> key_lt (x :: a) (y :: b).
Proof.
  intros H. unfold key_lt. cbn. apply N.compare_lt_iff in H. now rewrite H.
Qed.

Lemma key_lt_tail x a b : key_lt a b -> key_lt (x :: a) (x :: b).
Proof. unfold key_lt. cbn. now rewrite N.compare_refl. Qed.

Ltac by_digits := unfold digit_unit; Z.div_mod_to_equations; lia.

Ltac next_digit :=
  match goal with
  | |- key_lt (digit_unit ?p :: _) (digit_unit ?q :: _) =>
      let H := fresh "Hd" in
      destruct (Z.lt_trichotomy p q) as [H|[H|H]];
      [ apply key_lt_head; by_digits
      | rewrite H; apply key_lt_tail
      | exfalso; by_digits ]
  end.

(** On calendar dates the order of the keys is the order of time. *)
Lemma earlier_key_lt s s' :
  calendar s -> calendar s' -> earlier s s' -> key_lt (monthKey s) (monthKey s').
Proof.
  intros Hs Hs' He. rewrite !monthKey_calendar by assumption.
  destruct Hs as [Hy Hm], Hs' as [Hy' Hm'].
  destruct He as [Hlt|[Heq Hlt]].
  - unfold four_digits. cbn [app].
    next_digit. next_digit. next_digit. next_digit.
    exfalso. by_digits.
  - rewrite Heq. unfold key_lt. rewrite localeCompare_prefix.
    cbn [app]. apply key_lt_tail. unfold two_digits.
    next_digit. next_digit. exfalso. by_digits.
Qed.

End KeyFacts.

(* ------------------------------------------------------------------------- *)
(** ** The aggregator *)

Module AggregatorFacts.
Import ChartData Aggregator OrderFacts KeyFacts.

(** The observations of one period, in input order. *)
Definition group (l : list TradeStats.t) (k : jsstring) : list TradeStats.t :=
  filter (fun s => jsstring_eqb (monthKey s) k) l.

(** The sum the loop builds: from 0, one addition per observation, left to
    right. *)
Definition running_sum (f : TradeStats.t -> float) (ss : list TradeStats.t)
  : float :=
  fold_left (fun acc s => (acc + f s)%float) ss 0%float.

(** The map entry of period [k] once all of [l] went through the loop. *)
Definition entry (l : list TradeStats.t) (k : jsstring) : ChartData.t :=
  let tv := running_sum TradeStats.value (group l k) in
  let vol := running_sum TradeStats.volume (group l k) in
  {| month := k; total_value := tv; volume := vol;
     value_per_volume := (tv / vol)%float; isLatest := None |}.

(** The periods of [l], each once, in order of first appearance. *)
Definition periods (l : list TradeStats.t) : list jsstring :=
  fold_left (fun acc s =>
               if existsb (jsstring_eqb (monthKey s)) acc then acc
               else acc ++ [monthKey s])
            l [].

Definition sorted_periods (l : list TradeStats.t) : list jsstring :=
  sort localeCompare (periods l).

Definition row (l : list TradeStats.t) (k : jsstring) : ChartData.t :=
  with_isLatest false (entry l k).

Lemma existsb_key k ks : existsb (jsstring_eqb k) ks = true <-> In k ks.
Proof.
  rewrite existsb_exists. split.
  - intros [x [Hx Heq]]. apply jsstring_eqb_eq in Heq. now subst.
  - intros H. exists k. split; [assumption|apply jsstring_eqb_refl].
Qed.

Lemma existsb_key_false k ks : existsb (jsstring_eqb k) ks = false <-> ~ In k ks.
Proof.
  rewrite <- existsb_key. destruct (existsb (jsstring_eqb k) ks); split; congruence.
Qed.

Lemma jsstring_eqb_neq a b : jsstring_eqb a b = false <-> a <> b.
Proof.
  rewrite <- jsstring_eqb_eq. destruct (jsstring_eqb a b); split; congruence.
Qed.

Section MapFacts.
Variable V : Type.
Variable g : jsstring -> V.

Definition build (ks : list jsstring) : JsMap.t V := map (fun k => (k, g k)) ks.

Lemma get_build k ks :
  JsMap.get k (build ks) = if existsb (jsstring_eqb k) ks then Some (g k) else None.
Proof.
  induction ks as [|k' ks IH]; cbn; [reflexivity|].
  destruct (jsstring_eqb k k') eqn:Hk; cbn; [|exact IH].
  apply jsstring_eqb_eq in Hk. now subst.
Qed.

Lemma set_build_new k v ks :
  ~ In k ks -> JsMap.set k v (build ks) = build ks ++ [(k, v)].
Proof.
  induction ks as [|k' ks IH]; cbn; [reflexivity|]. intros Hn.
  destruct (jsstring_eqb k k') eqn:Hk.
  - apply jsstring_eqb_eq in Hk. subst k'. tauto.
  - f_equal. apply IH. tauto.
Qed.

Lemma set_build_old k v ks :
  NoDup ks -> In k ks ->
  JsMap.set k v (build ks)
  = map (fun k' => (k', if jsstring_eqb k k' then v else g k')) ks.
Proof.
  induction 1 as [|k' ks Hnotin Hnd IH]; cbn; [intros []|]. intros Hin.
  destruct (jsstring_eqb k k') eqn:Hk.
  - apply jsstring_eqb_eq in Hk. subst k'. f_equal.
    apply map_ext_in. intros k'' Hk''.
    destruct (jsstring_eqb k k'') eqn:Hk2; [|reflexivity].
    apply jsstring_eqb_eq in Hk2. congruence.
  - f_equal. apply IH. destruct Hin as [->|]; [|assumption].
    rewrite jsstring_eqb_refl in Hk. discriminate.
Qed.

Lemma values_build ks : JsMap.values (build ks) = map g ks.
Proof. unfold JsMap.values, build. rewrite map_map. reflexivity. Qed.
End MapFacts.

Lemma periods_snoc l s :
  periods (l ++ [s])
  = if existsb (jsstring_eqb (monthKey s)) (periods l) then periods l
    else periods l ++ [monthKey s].
Proof. unfold periods. now rewrite fold_left_app. Qed.

Lemma periods_in l k : In k (periods l) <-> exists s, In s l /\ monthKey s = k.
Proof.
  induction l as [|s l IH] using rev_ind.
  - cbn. split; [tauto|intros [s [[] _]]].
  - rewrite periods_snoc.
    assert (Hsnoc : (exists s', In s' (l ++ [s]) /\ monthKey s' = k)
                    <-> In k (periods l) \/ monthKey s = k).
    { rewrite IH. split.
      - intros [s' [Hin Hk]]. apply in_app_or in Hin as [Hin|[<-|[]]]; eauto.
      - intros [[s' [Hin Hk]]| Hk].
        + exists s'. split; [apply in_or_app; now left|assumption].
        + exists s. split; [apply in_or_app; right; now left|assumption]. }
    rewrite Hsnoc.
    destruct (existsb (jsstring_eqb (monthKey s)) (periods l)) eqn:He.
    + apply existsb_key in He. split; [tauto|]. intros [H|<-]; assumption.
    + rewrite in_app_iff. cbn. split; intros [H|H]; auto.
      * destruct H as [H|[]]; auto.
Qed.

Lemma periods_NoDup l : NoDup (periods l).
Proof.
  induction l as [|s l IH] using rev_ind; [constructor|].
  rewrite periods_snoc.
  destruct (existsb (jsstring_eqb (monthKey s)) (periods l)) eqn:He; [assumption|].
  apply existsb_key_false in He.
  eapply Permutation_NoDup; [apply Permutation_cons_append|].
  now constructor.
Qed.

Lemma group_snoc l s k :
  group (l ++ [s]) k
  = group l k ++ (if jsstring_eqb (monthKey s) k then [s] else []).
Proof. unfold group. rewrite filter_app. reflexivity. Qed.

Lemma group_absent l k : ~ In k (periods l) -> group l k = [].
Proof.
  intros Hn. unfold group.
  induction l as [|s l IH]; [reflexivity|]. cbn.
  destruct (jsstring_eqb (monthKey s) k) eqn:Hk.
  - apply jsstring_eqb_eq in Hk. destruct Hn. apply periods_in.
    exists s. split; [now left|assumption].
  - apply IH. intros Hin. apply Hn. apply periods_in.
    apply periods_in in Hin as [s' [Hs' Hk']]. exists s'. split; [now right|assumption].
Qed.

Lemma running_sum_snoc f ss s :
  running_sum f (ss ++ [s]) = (running_sum f ss + f s)%float.
Proof. unfold running_sum. now rewrite fold_left_app. Qed.

Lemma entry_other l s k :
  monthKey s <> k -> entry (l ++ [s]) k = entry l k.
Proof.
  intros Hk. unfold entry. rewrite group_snoc.
  apply jsstring_eqb_neq in Hk. rewrite Hk, app_nil_r. reflexivity.
Qed.

Lemma entry_same l s :
  entry (l ++ [s]) (monthKey s)
  = let tv := (total_value (entry l (monthKey s)) + TradeStats.value s)%float in
    let vol := (volume (entry l (monthKey s)) + TradeStats.volume s)%float in
    {| month := monthKey s; total_value := tv; volume := vol;
       value_per_volume := (tv / vol)%float; isLatest := None |}.
Proof.
  unfold entry. rewrite group_snoc, jsstring_eqb_refl, !running_sum_snoc.
  reflexivity.
Qed.

(** What the loop leaves in the map: one entry per period, in order of first
    appearance, holding that period's running sums and their quotient. *)
Lemma monthlyData_spec l : monthlyData l = build (entry l) (periods l).
Proof.
  induction l as [|s l IH] using rev_ind; [reflexivity|].
  unfold monthlyData in *. rewrite fold_left_app. cbn [fold_left].
  rewrite IH, periods_snoc. unfold accumulate.
  rewrite get_build.
  destruct (existsb (jsstring_eqb (monthKey s)) (periods l)) eqn:He.
  - apply existsb_key in He.
    rewrite set_build_old by (auto using periods_NoDup).
    apply map_ext_in. intros k Hk. f_equal.
    destruct (jsstring_eqb (monthKey s) k) eqn:Hsk.
    + apply jsstring_eqb_eq in Hsk. subst k. now rewrite entry_same.
    + apply jsstring_eqb_neq in Hsk. now rewrite entry_other.
  - apply existsb_key_false in He.
    rewrite set_build_new by assumption.
    unfold build. rewrite map_app. cbn [map]. f_equal.
    + apply map_ext_in. intros k Hk. f_equal. rewrite entry_other; congruence.
    + rewrite entry_same. unfold entry at 1 2.
      rewrite (@group_absent _ _ He). reflexivity.
Qed.

Lemma update_at_last (A : Type) (f : A -> A) front x :
  update_at (length (front ++ [x]) - 1) f (front ++ [x]) = front ++ [f x].
Proof.
  induction front as [|y front IH]; [reflexivity|].
  cbn [app length]. rewrite length_app in *. cbn [length] in *.
  replace (S (length front + 1) - 1)%nat with (S (length front + 1 - 1)) by lia.
  cbn. now rewrite IH.
Qed.

(** The memo, as a function of the sorted periods. *)
Lemma chartData_spec l :
  chartData l
  = let rows := map (row l) (sorted_periods l) in
    if (0 <? length rows)%nat
    then update_at (length rows - 1) (with_isLatest true) rows
    else rows.
Proof.
  unfold chartData. destruct l as [|s l]; [reflexivity|].
  cbn [length Nat.eqb]. rewrite monthlyData_spec, values_build, map_map.
  unfold sorted_periods.
  rewrite (sort_of_keys (fun a b => localeCompare (month a) (month b))
                        (row (s :: l)) localeCompare) by reflexivity.
  reflexivity.
Qed.

Lemma sorted_periods_in l k :
  In k (sorted_periods l) <-> exists s, In s l /\ monthKey s = k.
Proof.
  rewrite <- periods_in. unfold sorted_periods. split; intros H.
  - eapply Permutation_in; [apply Permutation_sym, sort_perm|eassumption].
  - eapply Permutation_in; [apply sort_perm|eassumption].
Qed.

Lemma sorted_periods_strict l : StronglySorted key_lt (sorted_periods l).
Proof. apply sort_strict, periods_NoDup. Qed.

(** The output: nothing for no input; otherwise the rows of the sorted
    periods with the flag raised on the last one only. *)
Lemma chartData_shape l :
  (l = [] /\ chartData l = [])
  \/ exists front last,
       sorted_periods l = front ++ [last]
       /\ chartData l = map (row l) front ++ [with_isLatest true (entry l last)].
Proof.
  destruct l as [|s l]; [now left|right].
  rewrite chartData_spec. cbv zeta.
  assert (Hne : sorted_periods (s :: l) <> []).
  { intros Hk.
    assert (Hin : In (monthKey s) (sorted_periods (s :: l)))
      by (apply sorted_periods_in; exists s; split; [now left|reflexivity]).
    rewrite Hk in Hin. destruct Hin. }
  destruct (exists_last Hne) as [front [last ->]].
  exists front, last. split; [reflexivity|].
  rewrite map_app. cbn [map].
  replace (0 <? length (map (row (s :: l)) front ++ [row (s :: l) last]))%nat
    with true
    by (symmetry; apply Nat.ltb_lt; rewrite length_app; cbn; lia).
  rewrite update_at_last. reflexivity.
Qed.

Lemma map_month_rows l ks : map month (map (row l) ks) = ks.
Proof. rewrite map_map. cbn. apply map_id. Qed.

Lemma chartData_months l : map month (chartData l) = sorted_periods l.
Proof.
  destruct (chartData_shape l) as [[-> ->]|[front [last [Hk ->]]]]; [reflexivity|].
  rewrite map_app, map_month_rows, Hk. reflexivity.
Qed.

(** C5. The spec's worked example: two January observations and one for
    February give the January row (150, 15, unit price 10, not latest) and
    the February row (200, 20, unit price 10, latest). *)
Theorem chartData_worked_example :
  chartData [obs 2024 1 100 10; obs 2024 1 50 5; obs 2024 2 200 20]
  = [ {| month := js "2024-01"; total_value := 150; volume := 15;
         value_per_volume := 10; isLatest := Some false |};
      {| month := js "2024-02"; total_value := 200; volume := 20;
         value_per_volume := 10; isLatest := Some true |} ].
Proof. vm_compute. reflexivity. Qed.

(** *** Unit price *)

(** Division by a zero of either sign. *)
Lemma div_by_zero (x y : float) :
  (y =? 0)%float = true ->
  PrimFloat.is_nan (x / y) = true
  \/ (x / y)%float = infinity \/ (x / y)%float = neg_infinity.
Proof.
  intros Hy. rewrite eqb_spec in Hy.
  assert (Hz : exists s, Prim2SF y = S754_zero s).
  { change (Prim2SF 0) with (S754_zero false) in Hy.
    destruct (Prim2SF y) as [s|s| |s m e];
      [now exists s|destruct s; discriminate Hy|discriminate Hy
      |destruct s; discriminate Hy]. }
  destruct Hz as [sy Hz].
  pose proof (div_spec x y) as Hdiv. rewrite Hz in Hdiv.
  assert (Hcases : Prim2SF (x / y) = S754_nan
                   \/ Prim2SF (x / y) = S754_infinity false
                   \/ Prim2SF (x / y) = S754_infinity true).
  { rewrite Hdiv. destruct (Prim2SF x) as [s|s| |s m e]; cbn; auto;
      destruct s, sy; cbn; auto. }
  destruct Hcases as [H|[H|H]].
  - left. unfold PrimFloat.is_nan. rewrite eqb_spec, H. reflexivity.
  - right; left. apply Prim2SF_inj. rewrite H. reflexivity.
  - right; right. apply Prim2SF_inj. rewrite H. reflexivity.
Qed.

Lemma chartData_rows l d :
  In d (chartData l) -> exists b k, In k (sorted_periods l)
                                    /\ d = with_isLatest b (entry l k).
Proof.
  destruct (chartData_shape l) as [[-> ->]|[front [last [Hk ->]]]]; [intros []|].
  rewrite Hk. intros Hin. apply in_app_or in Hin as [Hin|[<-|[]]].
  - apply in_map_iff in Hin as [k [<- Hin]].
    exists false, k. split; [apply in_or_app; now left|reflexivity].
  - exists true, last. split; [apply in_or_app; right; now left|reflexivity].
Qed.

(** Counterexample to C1 as stated: the unit price of a group with no
    volume is not left out, it is the not-a-number or an infinity. *)
Lemma zero_volume_unit_price_is_nan_or_infinite :
  map (fun d => (volume d, value_per_volume d))
      (chartData [obs 2024 1 0 0; obs 2024 2 100 0])
  = [(0%float, nan); (0%float, infinity)].
Proof. vm_compute. reflexivity. Qed.

(** C1 (amended). Every row carries a unit price, and it is the
    float quotient of the row's total value by its total volume, whatever
    the volume; with a total volume of zero that quotient is the not-a-number
    or an infinity. *)
Theorem unit_price_is_the_quotient l d :
  In d (chartData l) ->
  value_per_volume d = (total_value d / volume d)%float
  /\ ((volume d =? 0)%float = true ->
      PrimFloat.is_nan (value_per_volume d) = true
      \/ value_per_volume d = infinity
      \/ value_per_volume d = neg_infinity).
Proof.
  intros Hin. destruct (chartData_rows _ _ Hin) as [b [k [_ ->]]].
  split; [reflexivity|]. cbn. apply div_by_zero.
Qed.

Lemma unit_price_is_the_quotient_witness :
  let d := {| month := js "2024-02"; total_value := 100; volume := 0;
              value_per_volume := infinity; isLatest := Some true |} in
  value_per_volume d = (total_value d / volume d)%float
  /\ (PrimFloat.is_nan (value_per_volume d) = true
      \/ value_per_volume d = infinity
      \/ value_per_volume d = neg_infinity).
Proof.
  intros d.
  assert (Hin : In d (chartData [obs 2024 1 0 0; obs 2024 2 100 0]))
    by (vm_compute; right; left; reflexivity).
  destruct (unit_price_is_the_quotient _ _ Hin) as [Hq Hz].
  split; [exact Hq|]. apply Hz. vm_compute. reflexivity.
Defined.

(** *** One row per period, sorted, the last one flagged *)

(** The flagged row is the chronologically last period of the input, in the
    spec's words: it is the row of an observation that no observation of the
    input comes after. *)
Definition latest_is_chronological (l : list TradeStats.t) : Prop :=
  forall d, In d (chartData l) -> isLatest d = Some true ->
  exists s_last, In s_last l /\ month d = monthKey s_last
                 /\ forall s, In s l -> ~ earlier s_last s.

(** Counterexample to C6 as stated: with a five-digit year next to a
    four-digit one the key order is not the order of time, and the flag
    lands on the earlier period. *)
Lemma latest_flag_follows_key_order :
  ~ latest_is_chronological [obs 9999 12 50 5; obs 10000 1 100 10].
Proof.
  intros H.
  destruct (H {| month := js "9999-12"; total_value := 50; volume := 5;
                 value_per_volume := 10; isLatest := Some true |})
    as [s_last [Hin [Hkey Hlast]]].
  - vm_compute. right; left; reflexivity.
  - reflexivity.
  - destruct Hin as [<-|[<-|[]]].
    + apply (Hlast (obs 10000 1 100 10)); [right; left; reflexivity|].
      left. cbn. lia.
    + vm_compute in Hkey. discriminate Hkey.
Qed.

Lemma sorted_last_is_greatest (R : jsstring -> jsstring -> Prop) front last :
  StronglySorted R (front ++ [last]) -> Forall (fun k => R k last) front.
Proof.
  induction front as [|k front IH]; cbn; intros H; [constructor|].
  inversion H as [|? ? Hs Hk]; subst. constructor; [|auto].
  rewrite Forall_forall in Hk. apply Hk, in_or_app. right. now left.
Qed.

Lemma monthKey_same_period s s' :
  monthKey s = monthKey s'
  <-> TradeStats.year_val s = TradeStats.year_val s'
      /\ TradeStats.month_val s = TradeStats.month_val s'.
Proof.
  split; [apply monthKey_inj|]. unfold monthKey. now intros [-> ->].
Qed.

(** C6 (amended). The output has a row for every period of the
    input and no other, distinct periods have distinct keys, the rows are
    strictly ascending by key (so no period has two rows), no input gives no
    output, and otherwise the last row and only the last is flagged.  The
    flagged row is the chronologically last period when the dates are
    calendar dates with four-digit years, for which the key is "YYYY-MM". *)
Theorem one_row_per_period_sorted_last_flagged l :
  (forall s, In s l -> exists d, In d (chartData l) /\ month d = monthKey s)
  /\ (forall d, In d (chartData l) -> exists s, In s l /\ month d = monthKey s)
  /\ (forall s s', monthKey s = monthKey s'
                   <-> TradeStats.year_val s = TradeStats.year_val s'
                       /\ TradeStats.month_val s = TradeStats.month_val s')
  /\ StronglySorted key_lt (map month (chartData l))
  /\ (l = [] -> chartData l = [])
  /\ (l <> [] ->
      exists front last,
        chartData l = front ++ [last]
        /\ Forall (fun d => isLatest d = Some false) front
        /\ isLatest last = Some true)
  /\ (Forall calendar l -> latest_is_chronological l).
Proof.
  assert (Hrows : forall k, In k (map month (chartData l))
                            <-> exists s, In s l /\ monthKey s = k).
  { intros k. rewrite chartData_months. apply sorted_periods_in. }
  split; [|split; [|split; [|split; [|split; [|split]]]]].
  - intros s Hs.
    assert (Hin : In (monthKey s) (map month (chartData l)))
      by (apply Hrows; eauto).
    apply in_map_iff in Hin as [d [Hd Hin]]. eauto.
  - intros d Hd.
    destruct (proj1 (Hrows (month d))) as [s [Hs Hk]];
      [now apply in_map|eauto].
  - apply monthKey_same_period.
  - rewrite chartData_months. apply sorted_periods_strict.
  - now intros ->.
  - intros Hne.
    destruct (chartData_shape l) as [[-> _]|[front [last [Hk ->]]]]; [congruence|].
    exists (map (row l) front), (with_isLatest true (entry l last)).
    repeat split. apply Forall_forall. intros d Hd.
    apply in_map_iff in Hd as [k [<- _]]. reflexivity.
  - intros Hcal d Hd Hflag.
    destruct (chartData_shape l) as [[-> Hnil]|[front [last [Hk Hout]]]];
      [rewrite Hnil in Hd; destruct Hd|].
    rewrite Hout in Hd. apply in_app_or in Hd as [Hd|[<-|[]]].
    { apply in_map_iff in Hd as [k [<- _]]. discriminate Hflag. }
    cbn [month with_isLatest entry].
    assert (Hlast : In last (sorted_periods l))
      by (rewrite Hk; apply in_or_app; right; now left).
    apply sorted_periods_in in Hlast as [s_last [Hin Hkey]].
    exists s_last. repeat split; [assumption|congruence|].
    intros s Hs Hearlier.
    rewrite Forall_forall in Hcal.
    pose proof (earlier_key_lt (Hcal _ Hin) (Hcal _ Hs) Hearlier) as Hlt.
    rewrite Hkey in Hlt.
    assert (Hs' : In (monthKey s) (front ++ [last]))
      by (rewrite <- Hk; apply sorted_periods_in; eauto).
    pose proof (sorted_periods_strict l) as Hsorted. rewrite Hk in Hsorted.
    apply sorted_last_is_greatest in Hsorted. rewrite Forall_forall in Hsorted.
    apply in_app_or in Hs' as [Hs'|[Hs'|[]]].
    + exact (key_lt_asym Hlt (Hsorted _ Hs')).
    + rewrite <- Hs' in Hlt. exact (key_lt_irrefl Hlt).
Qed.

Lemma one_row_per_period_sorted_last_flagged_witness :
  let l := [obs 2024 2 200 20; obs 2023 12 50 5; obs 2024 1 100 10] in
  (exists front last,
      chartData l = front ++ [last]
      /\ Forall (fun d => isLatest d = Some false) front
      /\ isLatest last = Some true)
  /\ latest_is_chronological l.
Proof.
  intros l. split.
  - apply (proj1 (proj2 (proj2 (proj2 (proj2 (proj2
             (one_row_per_period_sorted_last_flagged l))))))).
    discriminate.
  - apply (proj2 (proj2 (proj2 (proj2 (proj2 (proj2
             (one_row_per_period_sorted_last_flagged l))))))).
    repeat constructor; cbn; lia.
Defined.

(** *** The order of the input *)

(** The running sums of period [k] come out the same from [l] and [l']. *)
Definition same_sums (l l' : list TradeStats.t) (k : jsstring) : Prop :=
  running_sum TradeStats.value (group l' k)
  = running_sum TradeStats.value (group l k)
  /\ running_sum TradeStats.volume (group l' k)
     = running_sum TradeStats.volume (group l k).

Lemma sorted_periods_perm l l' :
  Permutation l l' -> sorted_periods l' = sorted_periods l.
Proof.
  intros Hp. apply strictly_sorted_unique; try apply sorted_periods_strict.
  intros k. rewrite !sorted_periods_in.
  split; intros [s [Hs Hk]]; exists s; split; try assumption.
  - eapply Permutation_in; [apply Permutation_sym|]; eassumption.
  - eapply Permutation_in; eassumption.
Qed.

Lemma chartData_compare (B : Type) (h : ChartData.t -> B) l l' :
  sorted_periods l' = sorted_periods l ->
  (forall k b, In k (sorted_periods l) ->
               h (with_isLatest b (entry l' k)) = h (with_isLatest b (entry l k))) ->
  map h (chartData l') = map h (chartData l).
Proof.
  intros Hk Hh.
  destruct (chartData_shape l) as [[-> ->]|[front [last [Hl ->]]]];
    destruct (chartData_shape l') as [[-> ->]|[front' [last' [Hl' ->]]]].
  - reflexivity.
  - rewrite Hl' in Hk. destruct front'; discriminate Hk.
  - rewrite Hl in Hk. destruct front; discriminate Hk.
  - rewrite Hl, Hl' in Hk. apply app_inj_tail in Hk as [-> ->].
    rewrite !map_app, !map_map. cbn [map]. f_equal.
    + apply map_ext_in. intros k Hin. apply Hh.
      rewrite Hl. apply in_or_app. now left.
    + f_equal. apply Hh. rewrite Hl. apply in_or_app. right. now left.
Qed.

(** Counterexample to C10 as stated: float addition is not associative, and
    the same three observations in the opposite order give another total. *)
Lemma totals_depend_on_input_order :
  let l := [obs 2024 1 0x1.999999999999ap-4 1;
            obs 2024 1 0x1.999999999999ap-3 1;
            obs 2024 1 0x1.3333333333333p-2 1] in
  Permutation l (rev l) /\ chartData (rev l) <> chartData l.
Proof.
  intros l. split; [apply Permutation_rev|].
  vm_compute. intros H. discriminate H.
Qed.

(** C10 (amended). For a permutation of the input the output has
    the same periods in the same order with the same flags; the whole
    output is the same when in addition each period's running sums come out
    the same in both orders. *)
Theorem output_independent_of_input_order l l' :
  Permutation l l' ->
  map month (chartData l') = map month (chartData l)
  /\ map isLatest (chartData l') = map isLatest (chartData l)
  /\ ((forall s, In s l -> same_sums l l' (monthKey s)) ->
      chartData l' = chartData l).
Proof.
  intros Hp. pose proof (sorted_periods_perm Hp) as Hk.
  split; [|split].
  - now apply chartData_compare.
  - now apply chartData_compare.
  - intros Hsums.
    rewrite <- (map_id (chartData l')), <- (map_id (chartData l)).
    apply chartData_compare; [assumption|].
    intros k b Hin. apply sorted_periods_in in Hin as [s [Hs <-]].
    destruct (Hsums s Hs) as [Hv Hvol].
    unfold entry. now rewrite Hv, Hvol.
Qed.

Lemma output_independent_of_input_order_witness :
  let l := [obs 2024 1 100 10; obs 2024 1 50 5; obs 2024 2 200 20] in
  let l' := [obs 2024 2 200 20; obs 2024 1 50 5; obs 2024 1 100 10] in
  chartData l' = chartData l.
Proof.
  intros l l'.
  assert (Hp : Permutation l l').
  { exact (Permutation_rev l). }
  apply (proj2 (proj2 (output_independent_of_input_order Hp))).
  intros s [<-|[<-|[<-|[]]]]; split; vm_compute; reflexivity.
Defined.

End AggregatorFacts.

(* ------------------------------------------------------------------------- *)
(** ** The record filter *)

Module SanitizerFacts.
Import Raw.

(** A row of the store with the four numeric columns set. *)
Definition numeric_row (y m v vol : float) : Row :=
  Some {| year_val := JNum y; month_val := JNum m;
          value := JNum v; volume := JNum vol;
          value_per_volume := JNum (v / vol);
          trade_flow := JStr (js "Import");
          hs_code_id := JStr (js "1234567890") |}.

(** A finite number that is not negative. *)
Definition finite_non_negative (x : float) : bool :=
  ((0 <=? x) && (x <? infinity))%float.

(** What the spec asks of a retained row: four numbers, value and volume
    finite and not negative. *)
Definition strictly_well_formed (row : Row) : Prop :=
  exists r y m v vol,
    row = Some r
    /\ year_val r = JNum y /\ month_val r = JNum m
    /\ value r = JNum v /\ volume r = JNum vol
    /\ finite_non_negative v = true /\ finite_non_negative vol = true.

(** What the filter asks of it: four numbers, value and volume not NaN. *)
Definition well_formed (row : Row) : Prop :=
  exists r y m v vol,
    row = Some r
    /\ year_val r = JNum y /\ month_val r = JNum m
    /\ value r = JNum v /\ volume r = JNum vol
    /\ PrimFloat.is_nan v = false /\ PrimFloat.is_nan vol = false.

(** [l] is [l'] with some elements left out. *)
Inductive subsequence (A : Type) : list A -> list A -> Prop :=
| sub_nil : subsequence [] []
| sub_keep x l l' : subsequence l l' -> subsequence (x :: l) (x :: l')
| sub_drop x l l' : subsequence l l' -> subsequence l (x :: l').

Lemma filter_subsequence (A : Type) (p : A -> bool) l :
  subsequence (filter p l) l.
Proof.
  induction l as [|x l IH]; cbn; [constructor|].
  destruct (p x); now constructor.
Qed.

Lemma keep_well_formed row : keep row = true <-> well_formed row.
Proof.
  unfold well_formed. destruct row as [r|]; cbn.
  2:{ split; [discriminate|]. intros [r [y [m [v [vol [H _]]]]]]. discriminate. }
  split.
  - intros H.
    destruct (year_val r) as [| | |y| |] eqn:Hy; try discriminate H.
    destruct (month_val r) as [| | |m| |] eqn:Hm; try discriminate H.
    destruct (value r) as [| | |v| |] eqn:Hv; try discriminate H.
    destruct (volume r) as [| | |vol| |] eqn:Hvol; try discriminate H.
    cbn in H. apply andb_true_iff in H as [H1 H2].
    apply negb_true_iff in H1, H2.
    exists r, y, m, v, vol. auto 10.
  - intros [r' [y [m [v [vol [[= <-] [Hy [Hm [Hv [Hvol [H1 H2]]]]]]]]]]].
    rewrite Hy, Hm, Hv, Hvol, H1, H2. reflexivity.
Qed.

(** Counterexample to C2 as stated: a negative value and an infinite one
    pass the filter. *)
Lemma negative_and_infinite_rows_are_kept :
  let rows := [numeric_row 2024 1 (-5) 10; numeric_row 2024 2 infinity 1] in
  Forall (fun row => In row (validData (Some rows))
                     /\ ~ strictly_well_formed row) rows.
Proof.
  assert (Hbad : forall y m v vol,
             finite_non_negative v = false ->
             ~ strictly_well_formed (numeric_row y m v vol)).
  { intros y m v vol Hv [r [y' [m' [v' [vol' [[= <-] [_ [_ [[= <-] [_ [H _]]]]]]]]]]].
    congruence. }
  constructor; [split|constructor; [split|constructor]].
  - vm_compute. left; reflexivity.
  - apply Hbad. vm_compute. reflexivity.
  - vm_compute. right; left; reflexivity.
  - apply Hbad. vm_compute. reflexivity.
Qed.

(** C2 (amended). The filter keeps a row exactly when it is an
    object whose year, month, value and volume are numbers and whose value
    and volume are not NaN; it tests nothing else, so infinite and negative
    values stay.  Rows are kept as they are or dropped, one by one and in
    their order. *)
Theorem filter_keeps_numeric_rows_in_order data :
  let rows := match data with Some rows => rows | None => [] end in
  subsequence (validData data) rows
  /\ (forall row, In row (validData data) <-> In row rows /\ well_formed row)
  /\ (forall a b,
        validData (Some (a ++ b)) = validData (Some a) ++ validData (Some b))
  /\ (forall row, well_formed row -> validData (Some [row]) = [row])
  /\ (forall row, ~ well_formed row -> validData (Some [row]) = []).
Proof.
  cbv zeta. unfold validData.
  split; [apply filter_subsequence|].
  split; [intros row; rewrite filter_In, keep_well_formed; tauto|].
  split; [intros a b; apply filter_app|].
  split; intros row Hrow; cbn.
  - apply keep_well_formed in Hrow. now rewrite Hrow.
  - destruct (keep row) eqn:Hk; [|reflexivity].
    apply keep_well_formed in Hk. contradiction.
Qed.

Lemma filter_keeps_numeric_rows_in_order_witness :
  validData (Some [numeric_row 2024 1 (-5) 10]) = [numeric_row 2024 1 (-5) 10]
  /\ validData (Some [numeric_row 2024 1 nan 10]) = []
  /\ validData (Some [None]) = [].
Proof.
  assert (Hgood : forall row, keep row = true -> well_formed row)
    by (intros row; apply keep_well_formed).
  assert (Hbad : forall row, keep row = false -> ~ well_formed row).
  { intros row Hk Hw. apply keep_well_formed in Hw. congruence. }
  split; [|split].
  - apply (proj1 (proj2 (proj2 (proj2
             (filter_keeps_numeric_rows_in_order None))))).
    apply Hgood. vm_compute. reflexivity.
  - apply (proj2 (proj2 (proj2 (proj2
             (filter_keeps_numeric_rows_in_order None))))).
    apply Hbad. vm_compute. reflexivity.
  - apply (proj2 (proj2 (proj2 (proj2
             (filter_keeps_numeric_rows_in_order None))))).
    apply Hbad. vm_compute. reflexivity.
Defined.

End SanitizerFacts.

(* ------------------------------------------------------------------------- *)
(** ** More on the dispatcher and on [processTradeData] *)

Module DispatchFacts.
Import Submission SubmissionFacts ValidatorFacts.

(** Everything [makeRequest] does in [n] attempts of which all but the last
    were rejected: the posts, and between them the retry line and the wait. *)
Definition attempt_events (p : TradeWebhookPayload) (n : nat) : list Event :=
  post_of p ::
  flat_map (fun k => [ConsoleLog (retry_message k);
                      Delay (RETRY_DELAY * Z.of_nat k); post_of p])
           (seq 1 (n - 1)).

Definition after_attempts (p : TradeWebhookPayload) (n : nat) (st : St) : St :=
  {| sent := sent st + n; trace := trace st ++ attempt_events p n |}.

Lemma after_one p st : posted p st = after_attempts p 1 st.
Proof. unfold posted, after_attempts. now rewrite Nat.add_1_r. Qed.

Lemma after_two p st : posted p (backed_off p 1 st) = after_attempts p 2 st.
Proof.
  unfold posted, after_attempts. rewrite sent_backed_off, trace_backed_off.
  rewrite <- app_assoc. f_equal. lia.
Qed.

Lemma after_three p st :
  posted p (backed_off p 2 (backed_off p 1 st)) = after_attempts p 3 st.
Proof.
  unfold posted, after_attempts.
  rewrite !sent_backed_off, !trace_backed_off, <- !app_assoc. f_equal. lia.
Qed.

Lemma wire_retries p n : forall k,
  wire (flat_map (fun k => [ConsoleLog (retry_message k);
                            Delay (RETRY_DELAY * Z.of_nat k); post_of p])
                 (seq k n))
  = flat_map (fun k => [Delay (1000 * (Z.of_nat k - 1)); post_of p])
             (seq (S k) n).
Proof.
  induction n as [|n IH]; intros k; [reflexivity|].
  cbn [seq flat_map app]. unfold wire in *. cbn [filter post_of].
  rewrite IH.
  replace (RETRY_DELAY * Z.of_nat k)%Z with (1000 * (Z.of_nat (S k) - 1))%Z
    by (unfold RETRY_DELAY; lia).
  reflexivity.
Qed.

Lemma wire_attempt_events p n : wire (attempt_events p n) = schedule p n.
Proof.
  unfold attempt_events, schedule.
  change (wire (post_of p :: ?l)) with (post_of p :: wire l).
  now rewrite wire_retries.
Qed.

(** The four ways a submission can go. *)
Lemma makeRequest_cases w p st :
  (exists d,
      endpoint w (sent st) p = Responded d
      /\ makeRequest w p 1 st = (after_attempts p 1 st, Ret (ResponseData d)))
  \/ (exists e1 d,
         endpoint w (sent st) p = Rejected e1
         /\ endpoint w (S (sent st)) p = Responded d
         /\ makeRequest w p 1 st = (after_attempts p 2 st, Ret (ResponseData d)))
  \/ (exists e1 e2 d,
         endpoint w (sent st) p = Rejected e1
         /\ endpoint w (S (sent st)) p = Rejected e2
         /\ endpoint w (S (S (sent st))) p = Responded d
         /\ makeRequest w p 1 st = (after_attempts p 3 st, Ret (ResponseData d)))
  \/ (exists e1 e2 e3,
         endpoint w (sent st) p = Rejected e1
         /\ endpoint w (S (sent st)) p = Rejected e2
         /\ endpoint w (S (S (sent st))) p = Rejected e3
         /\ makeRequest w p 1 st
            = (after_attempts p 3 st, Throw (terminal_error e3))).
Proof.
  rewrite <- after_one, <- after_two, <- after_three.
  rewrite makeRequest_unfold.
  destruct (endpoint w (sent st) p) as [d1|e1] eqn:H1; [left; eauto|right].
  cbn [Nat.ltb Nat.leb MAX_RETRIES Nat.add].
  rewrite makeRequest_unfold, sent_backed_off.
  destruct (endpoint w (S (sent st)) p) as [d2|e2] eqn:H2;
    [left; eauto 6|right].
  cbn [Nat.ltb Nat.leb MAX_RETRIES Nat.add].
  rewrite makeRequest_unfold, !sent_backed_off.
  destruct (endpoint w (S (S (sent st))) p) as [d3|e3] eqn:H3;
    [left; eauto 8|right; eauto 8].
Qed.

(** X1. The reply is the first answer among the three attempts, and nothing
    is sent after it: when attempts 1..k are rejected and attempt k+1 is
    answered, [makeRequest] resolves with that answer after exactly k+1
    posts. *)
Theorem first_answer_settles w p st k d :
  (k < MAX_RETRIES)%nat ->
  (forall j, (j < k)%nat -> exists e, endpoint w (sent st + j) p = Rejected e) ->
  endpoint w (sent st + k) p = Responded d ->
  makeRequest w p 1 st = (after_attempts p (S k) st, Ret (ResponseData d)).
Proof.
  unfold MAX_RETRIES. intros Hk Hrej Hans.
  assert (H0 : (sent st + 0 = sent st)%nat) by lia.
  assert (H1 : (sent st + 1 = S (sent st))%nat) by lia.
  assert (H2 : (sent st + 2 = S (S (sent st)))%nat) by lia.
  destruct (makeRequest_cases w p st)
    as [[d' [A1 ->]]|[[e1 [d' [A1 [A2 ->]]]]
       |[[e1 [e2 [d' [A1 [A2 [A3 ->]]]]]]|[e1 [e2 [e3 [A1 [A2 [A3 ->]]]]]]]]].
  - destruct k as [|k].
    + rewrite H0 in Hans. congruence.
    + destruct (Hrej 0%nat) as [e He]; [lia|]. rewrite H0 in He. congruence.
  - destruct k as [|[|k]].
    + rewrite H0 in Hans. congruence.
    + rewrite H1 in Hans. congruence.
    + destruct (Hrej 1%nat) as [e He]; [lia|]. rewrite H1 in He. congruence.
  - destruct k as [|[|[|k]]]; try lia.
    + rewrite H0 in Hans. congruence.
    + rewrite H1 in Hans. congruence.
    + rewrite H2 in Hans. congruence.
  - destruct k as [|[|[|k]]]; try lia.
    + rewrite H0 in Hans. congruence.
    + rewrite H1 in Hans. congruence.
    + rewrite H2 in Hans. congruence.
Qed.

Definition answering_third : World :=
  {| hs_codes_single := fun _ => QueryThrows;
     endpoint := fun n _ =>
       match n with
       | 0%nat | 1%nat => Rejected (http 500 "Request failed with status code 500")
       | _ => Responded (JStr (js "accepted"))
       end;
     now_iso := js "2025-03-25T12:00:00.000Z";
     uuidv4 := js "0b5c6f1e-6f0a-4c57-9d0c-3f2f4f1f7a11" |}.

Lemma first_answer_settles_witness :
  makeRequest answering_third sample_payload 1 init
  = (after_attempts sample_payload 3 init,
     Ret (ResponseData (JStr (js "accepted")))).
Proof.
  apply (@first_answer_settles answering_third sample_payload init 2%nat).
  - unfold MAX_RETRIES. lia.
  - intros [|[|j]] Hj; [eexists; reflexivity|eexists; reflexivity|lia].
  - reflexivity.
Defined.

(** The time a trace allows for: the timeout of each post and each wait. *)
Definition time_budget (evs : list Event) : Z :=
  fold_right (fun e acc =>
                match e with
                | Post _ _ timeout => timeout + acc
                | Delay ms => ms + acc
                | _ => acc
                end)%Z 0%Z evs.

(** The time spent waiting between attempts. *)
Definition waited (evs : list Event) : Z :=
  fold_right (fun e acc =>
                match e with Delay ms => ms + acc | _ => acc end)%Z 0%Z evs.

Lemma makeRequest_runs w p st :
  exists n r,
    (1 <= n <= 3)%nat /\ makeRequest w p 1 st = (after_attempts p n st, r).
Proof.
  destruct (makeRequest_cases w p st)
    as [[d' [A1 ->]]|[[e1 [d' [A1 [A2 ->]]]]
       |[[e1 [e2 [d' [A1 [A2 [A3 ->]]]]]]|[e1 [e2 [e3 [A1 [A2 [A3 ->]]]]]]]]];
    [exists 1%nat|exists 2%nat|exists 3%nat|exists 3%nat];
    eexists; (split; [lia|reflexivity]).
Qed.

(** X2. A submission waits 0, 1000 or 3000 ms in all between its attempts,
    and the per-attempt timeouts and the waits together allow for at most
    48 seconds. *)
Theorem submission_time_is_bounded w p st :
  exists evs,
    trace (fst (makeRequest w p 1 st)) = trace st ++ evs
    /\ (waited evs = 0 \/ waited evs = 1000 \/ waited evs = 3000)%Z
    /\ (time_budget evs <= 3 * REQUEST_TIMEOUT + 3000)%Z
    /\ (3 * REQUEST_TIMEOUT + 3000 = 48000)%Z.
Proof.
  destruct (makeRequest_runs w p st) as [n [r [Hn ->]]].
  exists (attempt_events p n). split; [reflexivity|].
  destruct n as [|[|[|[|n]]]]; try lia;
    (split; [vm_compute; auto|split; [vm_compute; discriminate|reflexivity]]).
Qed.

(** *** [processTradeData] from end to end *)

Lemma lookup_returns w c st :
  exists d extra,
    getHSCodeDescription w c st
    = ({| sent := sent st; trace := trace st ++ Query c :: extra |}, Ret d)
    /\ d <> [] /\ wire extra = [].
Proof.
  assert (Hor : forall o, or_else o placeholder <> []).
  { intros [[|x s]|]; cbn; discriminate. }
  unfold getHSCodeDescription, emit. cbn [sent trace].
  destruct (hs_codes_single w c) as [|data [|]].
  - exists placeholder, [ConsoleError (js "Error in getHSCodeDescription:")].
    rewrite <- app_assoc. repeat split. discriminate.
  - exists placeholder, [ConsoleError (js "Error fetching HS code description:")].
    rewrite <- app_assoc. repeat split. discriminate.
  - eexists; exists []. repeat split. apply Hor.
Qed.

Lemma validate_cases code direction :
  validate code direction = Some code_error
  \/ validate code direction = Some direction_error
  \/ (validate code direction = None
      /\ exists s, code = JStr s /\ test hts_pattern (trim s) = true
                   /\ recognised_direction direction).
Proof.
  pose proof (code_guard code) as Hc.
  pose proof (direction_guard direction) as Hd.
  unfold validate.
  destruct (negb (JsType_eqb (typeof code) TString)
            || negb (match code with
                     | JStr s => test hts_pattern (trim s)
                     | _ => false
                     end)); [left; reflexivity|right].
  destruct (negb (strict_eq_str direction (js "Import"))
            && negb (strict_eq_str direction (js "Export")));
    [left; reflexivity|right].
  split; [reflexivity|].
  destruct (proj1 Hc eq_refl) as [s [-> Hs]].
  exists s. repeat split; [now apply code_check|now apply Hd].
Qed.

(** The body built for a string [s] and direction value [direction] once
    the lookup answered [d]. *)
Definition body_of (w : World) (s : jsstring) (direction : JsVal)
  (d : jsstring) : TradeWebhookPayload :=
  {| hsCode := trim s;
     hsCodeDescription := d;
     tradeType := if strict_eq_str direction (js "Import") then Import else Export;
     timestamp := now_iso w;
     requestId := uuidv4 w |}.

Lemma processTradeData_run w code direction st :
  (exists msg,
      (msg = code_error \/ msg = direction_error)
      /\ validate code direction = Some msg
      /\ processTradeData w code direction st
         = (emit (ConsoleError (js "processTradeData error:")) st, Throw msg))
  \/ (exists s d extra,
         validate code direction = None
         /\ code = JStr s /\ test hts_pattern (trim s) = true
         /\ recognised_direction direction
         /\ d <> [] /\ wire extra = []
         /\ processTradeData w code direction st
            = makeRequest w (body_of w s direction d) 1
                {| sent := sent st;
                   trace := trace st ++ Query (trim s) :: extra |}).
Proof.
  unfold processTradeData.
  destruct (validate_cases code direction) as [H|[H|[H [s [-> [Ht Hd]]]]]];
    rewrite H.
  - left. exists code_error. auto.
  - left. exists direction_error. auto.
  - right. destruct (lookup_returns w (trim s) st) as [d [extra [Hl [Hne Hw]]]].
    exists s, d, extra. rewrite Hl. repeat split; auto.
Qed.

Lemma wire_app a b : wire (a ++ b) = wire a ++ wire b.
Proof. apply filter_app. Qed.

(** X3. Whatever [processTradeData] posts is well formed: it goes to the
    webhook with the 15 s timeout, its code is the trimmed input and is
    exactly ten ASCII digits, its description is not empty, its trade type
    is the direction given, and its timestamp and request id are the ones
    drawn for this submission. *)
Theorem posted_bodies_are_well_formed w code direction st evs url body timeout :
  trace (fst (processTradeData w code direction st)) = trace st ++ evs ->
  In (Post url body timeout) evs ->
  url = WEBHOOK_URL /\ timeout = REQUEST_TIMEOUT
  /\ (exists s, code = JStr s /\ hsCode body = trim s)
  /\ length (hsCode body) = 10%nat
  /\ forallb is_digit (hsCode body) = true
  /\ hsCodeDescription body <> []
  /\ direction = JStr (match tradeType body with
                       | Import => js "Import"
                       | Export => js "Export"
                       end)
  /\ timestamp body = now_iso w
  /\ requestId body = uuidv4 w.
Proof.
  intros Htrace Hin.
  destruct (processTradeData_run w code direction st)
    as [[msg [_ [_ Hrun]]]|[s [d [extra [_ [-> [Ht [Hd [Hne [Hw Hrun]]]]]]]]]];
    rewrite Hrun in Htrace.
  - cbn in Htrace. apply app_inv_head in Htrace. subst evs.
    destruct Hin as [Hin|[]]. discriminate Hin.
  - destruct (makeRequest_runs w (body_of w s direction d)
                {| sent := sent st; trace := trace st ++ Query (trim s) :: extra |})
      as [n [r [_ Hm]]].
    rewrite Hm in Htrace. cbn [fst trace after_attempts] in Htrace.
    rewrite <- app_assoc in Htrace. apply app_inv_head in Htrace. subst evs.
    assert (Hpost : Post url body timeout = post_of (body_of w s direction d)).
    { cbn in Hin. destruct Hin as [Hin|Hin]; [discriminate Hin|].
      apply in_app_or in Hin as [Hin|Hin].
      - assert (Hx : In (Post url body timeout) (wire extra)).
        { apply filter_In. split; [assumption|reflexivity]. }
        rewrite Hw in Hx. destruct Hx.
      - unfold attempt_events in Hin. destruct Hin as [<-|Hin]; [reflexivity|].
        apply in_flat_map in Hin as [k [_ Hk]].
        destruct Hk as [Hk|[Hk|[<-|[]]]]; try discriminate; reflexivity. }
    injection Hpost as -> -> ->.
    apply hts_pattern_test in Ht as [Hlen Hdig].
    repeat split; cbn [body_of hsCode hsCodeDescription tradeType timestamp requestId];
      try assumption; [now exists s|].
    destruct (strict_eq_str direction (js "Import")) eqn:Hi.
    + now apply strict_eq_str_iff.
    + destruct Hd as [-> | ->]; [discriminate Hi|reflexivity].
Qed.

Definition answering_world : World :=
  {| hs_codes_single := fun _ =>
       QueryResult (Some {| hs_code_description := Some (js "Live horses") |}) false;
     endpoint := fun _ _ => Responded (JStr (js "accepted"));
     now_iso := js "2025-03-25T12:00:00.000Z";
     uuidv4 := js "0b5c6f1e-6f0a-4c57-9d0c-3f2f4f1f7a11" |}.

Lemma posted_bodies_are_well_formed_witness :
  let body := {| hsCode := js "0101210000";
                 hsCodeDescription := js "Live horses";
                 tradeType := Export;
                 timestamp := js "2025-03-25T12:00:00.000Z";
                 requestId := js "0b5c6f1e-6f0a-4c57-9d0c-3f2f4f1f7a11" |} in
  length (hsCode body) = 10%nat /\ hsCodeDescription body <> [].
Proof.
  intros body.
  assert (H := @posted_bodies_are_well_formed answering_world
                 (JStr (js " 0101210000 ")) (JStr (js "Export")) init
                 [Query (js "0101210000"); post_of body]
                 WEBHOOK_URL body REQUEST_TIMEOUT).
  destruct H as [_ [_ [_ [Hlen [_ [Hne _]]]]]].
  - vm_compute. reflexivity.
  - right; left. reflexivity.
  - split; assumption.
Defined.

(** X4. On the wire a submission is one lookup of the trimmed code followed
    by one to three posts of one and the same body with the waits between
    them; a submission that fails validation queries nothing and posts
    nothing. *)
Theorem submission_wire_shape w code direction st :
  exists evs,
    trace (fst (processTradeData w code direction st)) = trace st ++ evs
    /\ ((validate code direction <> None /\ wire evs = [])
        \/ (exists s body n,
               validate code direction = None /\ code = JStr s
               /\ (1 <= n <= MAX_RETRIES)%nat
               /\ wire evs = Query (trim s) :: schedule body n)).
Proof.
  destruct (processTradeData_run w code direction st)
    as [[msg [_ [Hv Hrun]]]|[s [d [extra [Hv [-> [Ht [Hd [Hne [Hw Hrun]]]]]]]]]];
    rewrite Hrun.
  - exists [ConsoleError (js "processTradeData error:")].
    split; [reflexivity|left]. split; [congruence|reflexivity].
  - destruct (makeRequest_runs w (body_of w s direction d)
                {| sent := sent st; trace := trace st ++ Query (trim s) :: extra |})
      as [n [r [Hn Hm]]].
    rewrite Hm. cbn [fst trace after_attempts].
    exists (Query (trim s) :: extra ++ attempt_events (body_of w s direction d) n).
    split; [now rewrite <- app_assoc|right].
    exists s, (body_of w s direction d), n.
    repeat split; try assumption; try (unfold MAX_RETRIES; lia).
    change (wire (Query (trim s) :: ?l)) with (Query (trim s) :: wire l).
    now rewrite wire_app, Hw, wire_attempt_events.
Qed.

(** X5. A submission ends in one of four ways only: the format error, the
    direction error, the classified error of a rejection the endpoint gave,
    or the body of a response the endpoint gave. *)
Theorem submission_outcomes w code direction st :
  let r := snd (processTradeData w code direction st) in
  r = Throw code_error
  \/ r = Throw direction_error
  \/ (exists n body e,
         endpoint w n body = Rejected e /\ r = Throw (terminal_error e))
  \/ (exists n body d,
         endpoint w n body = Responded d /\ r = Ret (ResponseData d)).
Proof.
  cbv zeta.
  destruct (processTradeData_run w code direction st)
    as [[msg [[->| ->] [_ ->]]]|[s [d [extra [_ [_ [_ [_ [_ [_ ->]]]]]]]]]]; auto.
  right; right.
  destruct (makeRequest_cases w (body_of w s direction d)
              {| sent := sent st; trace := trace st ++ Query (trim s) :: extra |})
    as [[d' [A1 ->]]|[[e1 [d' [A1 [A2 ->]]]]
       |[[e1 [e2 [d' [A1 [A2 [A3 ->]]]]]]|[e1 [e2 [e3 [A1 [A2 [A3 ->]]]]]]]]];
    cbn [snd]; eauto 8.
Qed.

(** *** White space around the code *)

Definition head_kept (t : jsstring) : Prop :=
  match t with [] => True | c :: _ => is_white_space c = false end.

Lemma trimStart_head_kept s : head_kept (trimStart s).
Proof.
  induction s as [|c s IH]; cbn; [exact I|].
  destruct (is_white_space c) eqn:Hc; [assumption|exact Hc].
Qed.

Lemma trimStart_fixed t : head_kept t -> trimStart t = t.
Proof. destruct t as [|c t]; cbn; [reflexivity|]. now intros ->. Qed.

Lemma trimEnd_head_kept t : head_kept t -> head_kept (trimEnd t).
Proof.
  intros Ht. destruct (trimEnd_split t) as [post [Heq _]].
  destruct (trimEnd t) as [|x u]; [exact I|].
  rewrite Heq in Ht. exact Ht.
Qed.

Lemma trimEnd_fixed t : head_kept (rev t) -> trimEnd t = t.
Proof.
  intros Ht. unfold trimEnd. rewrite (trimStart_fixed _ Ht). apply rev_involutive.
Qed.

Lemma trim_idempotent s : trim (trim s) = trim s.
Proof.
  unfold trim at 1.
  assert (Hhead : head_kept (trim s))
    by (apply trimEnd_head_kept, trimStart_head_kept).
  rewrite (trimStart_fixed _ Hhead). apply trimEnd_fixed.
  unfold trim, trimEnd. rewrite rev_involutive. apply trimStart_head_kept.
Qed.

(** X6. White space around the code changes nothing: a submission of a
    string and a submission of the same string trimmed do the same and end
    the same. *)
Theorem surrounding_white_space_is_irrelevant w s direction st :
  processTradeData w (JStr s) direction st
  = processTradeData w (JStr (trim s)) direction st.
Proof.
  unfold processTradeData, validate. cbn [typeof JsType_eqb negb orb].
  now rewrite trim_idempotent.
Qed.

End DispatchFacts.

(* ------------------------------------------------------------------------- *)
(** ** More on the chart component *)

Module ChartFacts.
Import ChartData Aggregator OrderFacts KeyFacts AggregatorFacts Chart.

(** *** The two description lookups *)

(** X7. The chart and the submission read the description the same way and
    differ only in what stands in for a missing one: the submission's
    description is the one the chart shows, with "Description not available"
    where the chart shows none. *)
Theorem description_lookups_agree w hsCode st :
  let shown :=
    hsCodeDescription
      (run_events initial
         (fetchHsCodeDescription (Submission.hs_codes_single w) hsCode)) in
  snd (Submission.getHSCodeDescription w hsCode st)
  = Submission.Ret (or_else (Some shown) Submission.placeholder).
Proof.
  cbv zeta. unfold Submission.getHSCodeDescription, fetchHsCodeDescription.
  destruct (Submission.hs_codes_single w hsCode) as [|[row|] [|]];
    try reflexivity.
  cbn. destruct (Submission.hs_code_description row) as [[|c s]|]; reflexivity.
Qed.

(** *** Fetching the observations *)

Definition queries (evs : list Event) : list (list QueryOp) :=
  flat_map (fun e => match e with StoreQuery q => [q] | _ => [] end) evs.

Definition toasts (evs : list Event) : list jsstring :=
  flat_map (fun e => match e with ToastError m => [m] | _ => [] end) evs.

(** X8. Whatever the store does, [fetchTradeStats] asks it once, ends with
    the spinner off, leaves the description alone, and leaves in the state
    only rows that pass the filter: the filtered rows when the query
    succeeds, with no toast, and no rows at all when it fails or throws, with
    exactly one toast. *)
Theorem fetch_always_settles store currentYear hsCode timeRange tradeFlow s0 :
  let evs := fetchTradeStats store currentYear hsCode timeRange tradeFlow in
  let q := trade_stats_query hsCode tradeFlow
             (getTimeRangeFilter currentYear timeRange) in
  let s := run_events s0 evs in
  queries evs = [q]
  /\ loading s = false
  /\ hsCodeDescription s = hsCodeDescription s0
  /\ Forall SanitizerFacts.well_formed (tradeStats s)
  /\ ((exists data, store q = FetchResult data false
                    /\ tradeStats s = Raw.validData data /\ toasts evs = [])
      \/ ((store q = FetchThrows \/ exists data, store q = FetchResult data true)
          /\ tradeStats s = []
          /\ toasts evs = [js "Failed to fetch trade statistics"])).
Proof.
  cbv zeta. unfold fetchTradeStats.
  assert (Hkept : forall data, Forall SanitizerFacts.well_formed (Raw.validData data)).
  { intros data. apply Forall_forall. intros row Hrow.
    apply SanitizerFacts.keep_well_formed.
    unfold Raw.validData in Hrow. now apply filter_In in Hrow. }
  destruct (store (trade_stats_query hsCode tradeFlow
                     (getTimeRangeFilter currentYear timeRange)))
    as [|data [|]];
    (split; [reflexivity|split; [reflexivity|split; [reflexivity|split]]]).
  - constructor.
  - right. split; [now left|split; reflexivity].
  - constructor.
  - right. split; [right; now exists data|split; reflexivity].
  - exact (Hkept data).
  - left. exists data. repeat split; reflexivity.
Qed.




(** *** Bars *)

(** X10. In the bar chart the last bar, and only the last, has the highlight
    colour. *)
Theorem only_the_last_bar_is_highlighted l :
  l <> [] ->
  exists n,
    map getBarColor (chartData l)
    = repeat (js "#2a9d90") n ++ [js "#2dd4bf"]
    /\ length (chartData l) = S n.
Proof.
  intros Hne.
  destruct (chartData_shape l) as [[-> _]|[front [last [_ ->]]]]; [congruence|].
  exists (length front). split.
  - rewrite map_app. cbn [map]. f_equal.
    induction front as [|k front IH]; cbn; [reflexivity|]. now f_equal.
  - rewrite length_app, length_map. cbn. lia.
Qed.

Lemma only_the_last_bar_is_highlighted_witness :
  map getBarColor
      (chartData [obs 2024 2 200 20; obs 2023 12 50 5; obs 2024 1 100 10])
  = [js "#2a9d90"; js "#2a9d90"; js "#2dd4bf"].
Proof.
  destruct (@only_the_last_bar_is_highlighted
              [obs 2024 2 200 20; obs 2023 12 50 5; obs 2024 1 100 10])
    as [n [Hcol Hlen]]; [discriminate|].
  rewrite Hcol. vm_compute in Hlen. injection Hlen as <-. reflexivity.
Defined.

(** *** Rows and observations *)

(** X12. Each row holds the sums of exactly the observations of its period:
    its total value and volume are the float sums, from 0 and in input order,
    of the values and volumes of the observations whose key is the row's
    month, and there is at least one such observation. *)
Theorem totals_are_the_sums_of_the_period l d :
  In d (chartData l) ->
  group l (month d) <> []
  /\ total_value d = running_sum TradeStats.value (group l (month d))
  /\ volume d = running_sum TradeStats.volume (group l (month d)).
Proof.
  intros Hin. destruct (chartData_rows _ _ Hin) as [b [k [Hk ->]]].
  cbn [month with_isLatest entry total_value volume].
  repeat split.
  apply sorted_periods_in in Hk as [s [Hs Hkey]].
  intros Hnil.
  assert (Hg : In s (group l k)).
  { apply filter_In. split; [assumption|now apply jsstring_eqb_eq]. }
  rewrite Hnil in Hg. destruct Hg.
Qed.

Lemma totals_are_the_sums_of_the_period_witness :
  let l := [obs 2024 1 100 10; obs 2024 2 200 20; obs 2024 1 50 5] in
  let d := {| month := js "2024-01"; total_value := 150; volume := 15;
              value_per_volume := 10; isLatest := Some false |} in
  total_value d = running_sum TradeStats.value (group l (month d)).
Proof.
  intros l d.
  apply (@totals_are_the_sums_of_the_period l d).
  vm_compute. left. reflexivity.
Defined.



(** Two observations with the same period and the same measurements. *)
Definition same_measurements (s s' : TradeStats.t) : Prop :=
  TradeStats.year_val s = TradeStats.year_val s'
  /\ TradeStats.month_val s = TradeStats.month_val s'
  /\ TradeStats.value s = TradeStats.value s'
  /\ TradeStats.volume s = TradeStats.volume s'.

(** X14. The chart reads nothing of an observation but its year, month,
    value and volume: the unit price, flow and code stored with it do not
    change the output. *)
Theorem only_the_measurements_are_read l l' :
  Forall2 same_measurements l l' -> chartData l = chartData l'.
Proof.
  intros H. unfold chartData.
  rewrite (Forall2_length H).
  assert (Hm : forall m, fold_left accumulate l m = fold_left accumulate l' m).
  { induction H as [|s s' l l' [Hy [Hmo [Hv Hvol]]] _ IH]; intros m;
      [reflexivity|].
    cbn [fold_left]. rewrite <- IH. f_equal.
    unfold accumulate, monthKey. now rewrite Hy, Hmo, Hv, Hvol. }
  unfold monthlyData. now rewrite Hm.
Qed.

Lemma only_the_measurements_are_read_witness :
  let s := obs 2024 1 100 10 in
  let s' := {| TradeStats.year_val := 2024; TradeStats.month_val := 1;
               TradeStats.value := 100; TradeStats.volume := 10;
               TradeStats.value_per_volume := nan;
               TradeStats.trade_flow := js "Export";
               TradeStats.hs_code_id := js "0101210000" |} in
  chartData [s] = chartData [s'].
Proof.
  intros s s'. apply only_the_measurements_are_read.
  repeat constructor.
Defined.

Lemma sorted_pair (R : jsstring -> jsstring -> Prop) a x b y c :
  StronglySorted R (a ++ x :: b ++ y :: c) -> R x y.
Proof.
  induction a as [|z a IH]; cbn; intros H; inversion H as [|? ? Hs Hx]; subst.
  - rewrite Forall_forall in Hx. apply Hx, in_or_app. right. now left.
  - now apply IH.
Qed.

(** X15. For calendar dates the rows are in the order of time: a row that
    comes before another is the row of an earlier period. *)
Theorem rows_are_in_time_order l front d mid d' back s s' :
  Forall calendar l ->
  chartData l = front ++ d :: mid ++ d' :: back ->
  In s l -> In s' l ->
  monthKey s = month d -> monthKey s' = month d' ->
  earlier s s'.
Proof.
  intros Hcal Hout Hs Hs' Hk Hk'.
  pose proof (sorted_periods_strict l) as Hsorted.
  rewrite <- chartData_months, Hout in Hsorted.
  rewrite map_app in Hsorted. cbn [map] in Hsorted.
  rewrite map_app in Hsorted. cbn [map] in Hsorted.
  apply sorted_pair in Hsorted. rewrite <- Hk, <- Hk' in Hsorted.
  rewrite Forall_forall in Hcal.
  pose proof (Hcal _ Hs) as Hc. pose proof (Hcal _ Hs') as Hc'.
  unfold earlier.
  destruct (Z.lt_trichotomy (TradeStats.year_val s) (TradeStats.year_val s'))
    as [Hy|[Hy|Hy]]; [now left| |].
  - destruct (Z.lt_trichotomy (TradeStats.month_val s) (TradeStats.month_val s'))
      as [Hm|[Hm|Hm]]; [right; now split| |].
    + exfalso. apply (@key_lt_irrefl (monthKey s)).
      replace (monthKey s) with (monthKey s') at 2
        by (unfold monthKey; now rewrite Hy, Hm).
      exact Hsorted.
    + exfalso. apply (key_lt_asym Hsorted).
      apply earlier_key_lt; try assumption. right. split; [now symmetry|assumption].
  - exfalso. apply (key_lt_asym Hsorted).
    apply earlier_key_lt; try assumption. now left.
Qed.

Lemma rows_are_in_time_order_witness :
  earlier (obs 2023 12 50 5) (obs 2024 2 200 20).
Proof.
  pose (l := [obs 2024 2 200 20; obs 2023 12 50 5; obs 2024 1 100 10]).
  apply (@rows_are_in_time_order l []
           {| month := js "2023-12"; total_value := 50; volume := 5;
              value_per_volume := 10; isLatest := Some false |}
           [{| month := js "2024-01"; total_value := 100; volume := 10;
               value_per_volume := 10; isLatest := Some false |}]
           {| month := js "2024-02"; total_value := 200; volume := 20;
              value_per_volume := 10; isLatest := Some true |}
           []).
  - repeat constructor; cbn; lia.
  - vm_compute. reflexivity.
  - right; left; reflexivity.
  - left; reflexivity.
  - vm_compute. reflexivity.
  - vm_compute. reflexivity.
Defined.

Lemma digit_unit_is_digit q : (0 <= q <= 9)%Z -> is_digit (digit_unit q) = true.
Proof.
  intros Hq. unfold is_digit, digit_unit.
  apply andb_true_iff. split; apply N.leb_le; lia.
Qed.

(** X16. For a four-digit year and a month from 1 to 12 the period key is
    seven code units: four digits, a hyphen, two digits. *)
Theorem calendar_key_shape s :
  calendar s ->
  exists y1 y2 y3 y4 m1 m2,
    monthKey s = [y1; y2; y3; y4; 0x2D%N; m1; m2]
    /\ forallb is_digit [y1; y2; y3; y4; m1; m2] = true.
Proof.
  intros Hs. rewrite (monthKey_calendar Hs). destruct Hs as [Hy Hm].
  unfold four_digits, two_digits. cbn [app].
  do 6 eexists. split; [reflexivity|].
  cbn [forallb]. rewrite !digit_unit_is_digit; [reflexivity| | | | | |];
    Z.div_mod_to_equations; lia.
Qed.

Lemma calendar_key_shape_witness :
  exists y1 y2 y3 y4 m1 m2,
    monthKey (obs 2024 3 100 10) = [y1; y2; y3; y4; 0x2D%N; m1; m2]
    /\ forallb is_digit [y1; y2; y3; y4; m1; m2] = true.
Proof.
  apply calendar_key_shape. split; cbn; lia.
Defined.

(** *** The exported file *)

(** Reading a separated line back: the pieces between the separators. *)
Fixpoint split_on (separator : N) (s : jsstring) : list jsstring :=
  match s with
  | [] => [[]]
  | c :: r =>
      if (c =? separator)%N then [] :: split_on separator r
      else match split_on separator r with
           | [] => [[c]]
           | piece :: pieces => (c :: piece) :: pieces
           end
  end.

Lemma split_on_piece sep x : forall r,
  ~ In sep x -> split_on sep (x ++ sep :: r) = x :: split_on sep r.
Proof.
  induction x as [|c x IH]; intros r Hx.
  - cbn. now rewrite N.eqb_refl.
  - cbn [app split_on].
    replace (c =? sep)%N with false
      by (symmetry; apply N.eqb_neq; intros ->; apply Hx; now left).
    rewrite IH; [reflexivity|]. intros H. apply Hx. now right.
Qed.

Lemma split_on_whole sep x : ~ In sep x -> split_on sep x = [x].
Proof.
  induction x as [|c x IH]; intros Hx; [reflexivity|].
  cbn [split_on].
  replace (c =? sep)%N with false
    by (symmetry; apply N.eqb_neq; intros ->; apply Hx; now left).
  rewrite IH; [reflexivity|]. intros H. apply Hx. now right.
Qed.

Lemma split_on_join sep parts :
  parts <> [] -> Forall (fun p => ~ In sep p) parts ->
  split_on sep (join [sep] parts) = parts.
Proof.
  induction parts as [|x parts IH]; [congruence|]. intros _ Hall.
  inversion Hall as [|? ? Hx Hrest]; subst.
  destruct parts as [|y parts]; [now apply split_on_whole|].
  change (join [sep] (x :: y :: parts)) with (x ++ sep :: join [sep] (y :: parts)).
  rewrite split_on_piece by assumption. f_equal. apply IH; [discriminate|assumption].
Qed.

Lemma in_join c sep parts :
  In c (join sep parts) -> In c sep \/ exists p, In p parts /\ In c p.
Proof.
  induction parts as [|x parts IH]; [intros []|].
  destruct parts as [|y parts].
  - intros H. right. exists x. split; [now left|assumption].
  - change (join sep (x :: y :: parts)) with (x ++ sep ++ join sep (y :: parts)).
    rewrite !in_app_iff. intros [H|[H|H]]; auto.
    + right. exists x. split; [now left|assumption].
    + destruct (IH H) as [Hs|[p [Hp Hc]]]; auto.
      right. exists p. split; [now right|assumption].
Qed.

(** A printed cell that holds neither a comma nor a line feed. *)
Definition plain (s : jsstring) : Prop := ~ In 0x2C%N s /\ ~ In 0x0A%N s.

(** X11. The exported text reads back: when no printed date or number holds
    a comma or a line feed, cutting the text at the line feeds and each line
    at the commas gives back the header and then, row for row and in order,
    the printed date, total value, volume and unit price of the chart. *)
Theorem exported_csv_reads_back formatDate numberToString data :
  (forall d, In d data ->
             Forall plain (map (cell_string numberToString)
                               (csvRow formatDate d))) ->
  map (split_on 0x2C%N)
      (split_on 0x0A%N (csvContent formatDate numberToString data))
  = map (map (cell_string numberToString))
        (csvHeader :: map (csvRow formatDate) data).
Proof.
  intros Hplain. unfold csvContent.
  assert (Hrows : Forall (fun row => row <> []
                                     /\ Forall plain (map (cell_string numberToString) row))
                         (csvHeader :: map (csvRow formatDate) data)).
  { constructor.
    - split; [discriminate|].
      repeat constructor; cbn; intros H;
        repeat (destruct H as [H|H]; [discriminate H|]); exact H.
    - apply Forall_forall. intros row Hrow.
      apply in_map_iff in Hrow as [d [<- Hd]]. split; [discriminate|auto]. }
  assert (Hne : csvHeader :: map (csvRow formatDate) data <> []) by discriminate.
  revert Hrows Hne. generalize (csvHeader :: map (csvRow formatDate) data).
  intros rows Hrows Hne.
  rewrite split_on_join.
  - rewrite map_map. apply map_ext_in. intros row Hrow.
    rewrite Forall_forall in Hrows. destruct (Hrows _ Hrow) as [Hrne Hcells].
    change (js ",") with [0x2C%N]. apply split_on_join.
    + destruct row; [congruence|discriminate].
    + eapply Forall_impl; [|exact Hcells]. now intros p [Hp _].
  - destruct rows as [|row rows]; [congruence|discriminate].
  - apply Forall_forall. intros line Hline.
    apply in_map_iff in Hline as [row [<- Hrow]].
    rewrite Forall_forall in Hrows. destruct (Hrows _ Hrow) as [_ Hcells].
    intros Hin. apply in_join in Hin as [Hin|[p [Hp Hin]]].
    + vm_compute in Hin. destruct Hin as [Hin|[]]. discriminate Hin.
    + rewrite Forall_forall in Hcells. destruct (Hcells _ Hp) as [_ Hnl].
      contradiction.
Qed.

(** A printer for the numbers of the worked example. *)
Definition print_example (x : float) : jsstring :=
  if (x =? 150)%float then js "150"
  else if (x =? 15)%float then js "15"
  else if (x =? 10)%float then js "10"
  else js "NaN".

Lemma exported_csv_reads_back_witness :
  let data := [{| month := js "2024-01"; total_value := 150; volume := 15;
                  value_per_volume := 10; isLatest := Some true |}] in
  map (split_on 0x2C%N)
      (split_on 0x0A%N (csvContent (fun key => key) print_example data))
  = [[js "Date"; js "Customs Value"; js "Volume (kg)"; js "Value per Volume"];
     [js "2024-01"; js "150"; js "15"; js "10"]].
Proof.
  intros data.
  apply (@exported_csv_reads_back (fun key => key) print_example data).
  intros d [<-|[]].
  repeat constructor; vm_compute; intros H;
    repeat (destruct H as [H|H]; [discriminate H|]); exact H.
Defined.

End ChartFacts.

(* ------------------------------------------------------------------------- *)
(** ** The middleware *)

Module MiddlewareFacts.
Import Middleware.

(** X17. A redirect is never answered with another redirect: for the same
    session state the page a request is sent to is let through.  And no
    request for a path under /dashboard is let through without a session,
    nor one for a path under /auth with a session. *)
Theorem redirects_end_after_one_hop session pathname :
  (forall target, middleware session pathname = Redirect target ->
                  middleware session target = Next)
  /\ (middleware session pathname = Next ->
      (session = false -> startsWith pathname (js "/dashboard") = false)
      /\ (session = true -> startsWith pathname (js "/auth") = false)).
Proof.
  unfold middleware. split.
  - intros target.
    destruct session; cbn [negb andb].
    + destruct (startsWith pathname (js "/auth")); [|discriminate].
      intros [= <-]. reflexivity.
    + destruct (startsWith pathname (js "/dashboard")); [|discriminate].
      intros [= <-]. reflexivity.
  - destruct session; cbn [negb andb].
    + destruct (startsWith pathname (js "/auth")); [discriminate|].
      intros _. split; [discriminate|reflexivity].
    + destruct (startsWith pathname (js "/dashboard")); [discriminate|].
      intros _. split; [reflexivity|discriminate].
Qed.

Lemma redirects_end_after_one_hop_witness :
  middleware false (js "/auth/login") = Next
  /\ middleware true (js "/dashboard") = Next.
Proof.
  split.
  - apply (proj1 (redirects_end_after_one_hop false (js "/dashboard/billing"))).
    reflexivity.
  - apply (proj1 (redirects_end_after_one_hop true (js "/auth/login"))).
    reflexivity.
Defined.

End MiddlewareFacts.
